(** * Merkle-Patricia trie insertion: [merkle/put.go]

    A shallow embedding of [Put], [update], [getPathLength] and [upsert]
    of package [merkle].  Node objects live in an object heap and are
    addressed by reference, because the Go code mutates them in place
    while they sit on the path stack; every call the code makes on the
    node store, the value store and the traversal is recorded, in order,
    in a trace.  A Go [int] is a [Z]: the lengths and positions of the
    code stay far from the 64-bit bounds. *)

From Stdlib Require Import ZArith Lia String Ascii.
From Stdlib.Strings Require Import Byte.
From stdpp Require Import base list strings gmap.

Open Scope string_scope.
Open Scope list_scope.
Open Scope Z_scope.

(** ** Byte slices and nibble strings *)

Definition bytes := list byte.

(** [len(b)] of a byte slice and of a Go string, as Go [int]s. *)
Definition blen (b : bytes) : Z := Z.of_nat (length b).
Definition slen (s : string) : Z := Z.of_nat (String.length s).

(** [bytes.Equal] *)
Fixpoint bytes_Equal (a b : bytes) : bool :=
  match a, b with
  | [], [] => true
  | x :: a', y :: b' => Byte.eqb x y && bytes_Equal a' b'
  | _, _ => false
  end.

Fixpoint sdrop (n : nat) (s : string) : string :=
  match n, s with
  | O, _ => s
  | S n', String _ s' => sdrop n' s'
  | S _, EmptyString => EmptyString
  end.

Fixpoint stake (n : nat) (s : string) : string :=
  match n, s with
  | S n', String c s' => String c (stake n' s')
  | _, _ => EmptyString
  end.

(** [k[i]]: [None] is Go's index-out-of-range panic. *)
Definition str_index (k : string) (i : Z) : option ascii :=
  if (i <? 0) || (slen k <=? i) then None else String.get (Z.to_nat i) k.

(** [k[i:]]: [None] is Go's slice-bounds panic. *)
Definition str_from (k : string) (i : Z) : option string :=
  if (i <? 0) || (slen k <? i) then None else Some (sdrop (Z.to_nat i) k).

(** [k[:i]] *)
Definition str_to (k : string) (i : Z) : option string :=
  if (i <? 0) || (slen k <? i) then None else Some (stake (Z.to_nat i) k).

(** [string(c)] for a byte [c] of a hex string. *)
Definition string_of_char (c : ascii) : string := String c EmptyString.

(** [encoding/hex]: [hextable] and [EncodeToString]. *)
Definition hextable : string := "0123456789abcdef".

Definition hexdigit (n : N) : ascii :=
  match String.get (N.to_nat n) hextable with
  | Some c => c
  | None => "0"%char
  end.

Fixpoint hex_EncodeToString (src : bytes) : string :=
  match src with
  | [] => EmptyString
  | v :: rest =>
      String (hexdigit (N.shiftr (Byte.to_N v) 4))
        (String (hexdigit (N.land (Byte.to_N v) 15)) (hex_EncodeToString rest))
  end.

(** Modelled from the spec: [commonPrefix] is not part of [put.go];
    "given two nibble sequences, returns the longest shared leading
    subsequence". *)
Fixpoint commonPrefix (a b : string) : string :=
  match a, b with
  | String x a', String y b' =>
      if Ascii.eqb x y then String x (commonPrefix a' b') else EmptyString
  | _, _ => EmptyString
  end.

(** ** Errors *)

Inductive error_value :=
| InvalidUserDataError
| errors_New (msg : string)
| StoreFailure (code : nat).

(** A Go [error]; [None] is [nil]. *)
Definition error := option error_value.

(** ** Nodes *)

(** Modelled from the spec: the constants of [pb.NodeType] that [put.go]
    names; "the three node variants (Leaf, Extension, Branch)". *)
Inductive NodeType := NodeType_branch | NodeType_extension | NodeType_leaf.

(** Modelled from the spec: the short node behind [getShortNode], a Leaf
    [(path, value)] or an Extension [(path, child hash)]; both keep the
    second component in the field read by [getValue]. *)
Record shortNode := mkShort { sn_path : string; sn_value : bytes }.

(** Modelled from the spec: the node behind [getBranchNode], a "mapping
    from single-nibble (0-f) to hash-reference" and an optional value. *)
Record branchNode := mkBranch { bn_children : gmap string bytes; bn_value : bytes }.

(** Modelled from the spec: the node container, a "tagged variant, one
    of" Leaf, Extension, Branch. *)
Inductive nodeContainer :=
| BranchContainer (b : branchNode)
| ExtContainer (e : shortNode)
| LeafContainer (l : shortNode).

(** Modelled from the spec: [getNodeType], [isLeaf], [isBranch] and
    [isExt] read the tag of the variant. *)
Definition getNodeType (n : nodeContainer) : NodeType :=
  match n with
  | BranchContainer _ => NodeType_branch
  | ExtContainer _ => NodeType_extension
  | LeafContainer _ => NodeType_leaf
  end.

Definition isLeaf (n : nodeContainer) : bool :=
  match n with LeafContainer _ => true | _ => false end.
Definition isBranch (n : nodeContainer) : bool :=
  match n with BranchContainer _ => true | _ => false end.
Definition isExt (n : nodeContainer) : bool :=
  match n with ExtContainer _ => true | _ => false end.

(** Modelled from the spec: [getShortNode] and [getBranchNode] give the
    content of the variant; [None] is the nil pointer a container of the
    other kind gives. *)
Definition getShortNode (n : nodeContainer) : option shortNode :=
  match n with
  | BranchContainer _ => None
  | ExtContainer e => Some e
  | LeafContainer l => Some l
  end.

Definition getBranchNode (n : nodeContainer) : option branchNode :=
  match n with BranchContainer b => Some b | _ => None end.

(** Modelled from the spec: the setters of the node declarations
    ([setPath], [setExtChild], [setValue], [addBranchChild]), as functions
    on the node's content. *)
Definition with_path (p : string) (n : nodeContainer) : option nodeContainer :=
  match n with
  | BranchContainer _ => None
  | ExtContainer e => Some (ExtContainer (mkShort p (sn_value e)))
  | LeafContainer l => Some (LeafContainer (mkShort p (sn_value l)))
  end.

Definition with_short_value (v : bytes) (n : nodeContainer) : nodeContainer :=
  match n with
  | BranchContainer b => BranchContainer b
  | ExtContainer e => ExtContainer (mkShort (sn_path e) v)
  | LeafContainer l => LeafContainer (mkShort (sn_path l) v)
  end.

Definition with_branch_value (v : bytes) (n : nodeContainer) : option nodeContainer :=
  match n with
  | BranchContainer b => Some (BranchContainer (mkBranch (bn_children b) v))
  | _ => None
  end.

Definition with_child (idx : string) (h : bytes) (n : nodeContainer) : nodeContainer :=
  match n with
  | BranchContainer b => BranchContainer (mkBranch (<[idx := h]> (bn_children b)) (bn_value b))
  | _ => n
  end.

(** ** The tree, its object heap and the trace of collaborator calls *)

(** A reference to a node object. *)
Definition ref := nat.

(** The calls [put.go] makes on code outside it, with the content the
    node or value had at the time of the call. *)
Inductive call :=
| persistUserValue_call (v : bytes)
| Get_call (k : bytes)
| persistNode_call (n : nodeContainer)
| removeNodeFromStore_call (n : nodeContainer).

Record merkleTreeImp := mkTree {
  objs : list nodeContainer;
  root : option ref;
  calls : list call
}.

(** Modelled from the spec: [stack] is not part of [put.go].  The head
    of the list is the top of the stack; [toSlice] lists the nodes "from
    top (most specific) to bottom (root)", the order in which [update]
    walks them, so that the root is [nodes[stack.len()-1]]. *)
Definition stack := list ref.
Definition stack_len (s : stack) : Z := Z.of_nat (length s).
Definition push (n : ref) (s : stack) : stack := n :: s.
Definition pop (s : stack) : option (ref * stack) :=
  match s with
  | [] => None
  | n :: s' => Some (n, s')
  end.
Definition toSlice (s : stack) : list ref := s.

(** [items[i]] for a Go [int] index. *)
Definition slice_index (items : list ref) (i : Z) : option ref :=
  if i <? 0 then None else items !! Z.to_nat i.

(** ** A state monad with panics *)

(** A computation on the tree: [None] is a run-time panic. *)
Definition M (A : Type) : Type := merkleTreeImp -> option (A * merkleTreeImp).

Definition ret {A} (a : A) : M A := fun mt => Some (a, mt).

Definition bind {A B} (m : M A) (f : A -> M B) : M B :=
  fun mt =>
    match m mt with
    | Some (a, mt') => f a mt'
    | None => None
    end.

Notation "'let*' x ':=' m 'in' k" := (bind m (fun x => k))
  (at level 10, x name, m at level 100, k at level 200).
Notation "'let*' ' pat ':=' m 'in' k" :=
  (bind m (fun x => match x with pat => k end))
  (at level 10, pat pattern, m at level 100, k at level 200).

(** A value that must be there; its absence is a panic. *)
Definition must {A} (o : option A) : M A :=
  fun mt => match o with Some a => Some (a, mt) | None => None end.

Definition deref (r : ref) : M nodeContainer :=
  fun mt => match objs mt !! r with Some n => Some (n, mt) | None => None end.

Definition assign (r : ref) (n : nodeContainer) : M unit :=
  fun mt => Some (tt, mkTree (<[r := n]> (objs mt)) (root mt) (calls mt)).

Definition alloc (n : nodeContainer) : M ref :=
  fun mt => Some (length (objs mt), mkTree (objs mt ++ [n]) (root mt) (calls mt)).

Definition set_root (r : ref) : M unit :=
  fun mt => Some (tt, mkTree (objs mt) (Some r) (calls mt)).

(** ** The code of [put.go] *)

Section Merkle.

(** The collaborators of [put.go]: [crypto.Sha256]; the hash of a node's
    content with the error [getNodeHash] can return; the answer of the
    node store or value store to a call, given the calls made before it;
    and the traversal [Get], which only reads the tree. *)
Context (Sha256 : bytes -> bytes)
        (getNodeHash : nodeContainer -> bytes * error)
        (storeAnswer : list call -> call -> error)
        (Get : merkleTreeImp -> bytes -> bytes * stack * error).

(** Modelled from the spec: [persistUserValue], [persistNode] and
    [removeNodeFromStore] are not part of [put.go]; each is a call on the
    value store or the node store ("persist", "remove"), which is recorded
    with the content of its argument, and returns the store's answer. *)
Definition invoke (c : call) : M error :=
  fun mt => Some (storeAnswer (calls mt) c, mkTree (objs mt) (root mt) (calls mt ++ [c])).

Definition persistUserValue (v : bytes) : M error :=
  invoke (persistUserValue_call v).

Definition persistNode (n : ref) : M error :=
  let* c := deref n in invoke (persistNode_call c).

Definition removeNodeFromStore (n : ref) : M error :=
  let* c := deref n in invoke (removeNodeFromStore_call c).

(** Modelled from the spec: [mt.Get(k)] is not part of [put.go]; the
    "traversal never mutates state and performs no writes".  The call is
    recorded. *)
Definition call_Get (k : bytes) : M (bytes * stack * error) :=
  fun mt => Some (Get mt k, mkTree (objs mt) (root mt) (calls mt ++ [Get_call k])).

(** Modelled from the spec: the node constructors are not part of
    [put.go]; each creates a node object with the given content and
    returns no error. *)
Definition newLeafNodeContainer (path : string) (v : bytes) : M (ref * error) :=
  let* n := alloc (LeafContainer (mkShort path v)) in ret (n, None).

Definition newExtNodeContainer (path : string) (v : bytes) : M (ref * error) :=
  let* n := alloc (ExtContainer (mkShort path v)) in ret (n, None).

Definition newBranchNodeContainer : M (ref * error) :=
  let* n := alloc (BranchContainer (mkBranch ∅ [])) in ret (n, None).

(** Modelled from the spec: the accessors and setters of the node
    declarations, on a reference to a node object.  The short-node ones
    panic on a Branch and [setValue] on a short node, where the Go code
    would go through a nil pointer. *)
Definition getPath (n : ref) : M string :=
  let* c := deref n in let* sn := must (getShortNode c) in ret (sn_path sn).

Definition getValue (n : ref) : M bytes :=
  let* c := deref n in let* sn := must (getShortNode c) in ret (sn_value sn).

Definition setPath (n : ref) (p : string) : M unit :=
  let* c := deref n in let* c' := must (with_path p c) in assign n c'.

(** Modelled from the spec: [setExtChild] sets an extension's child
    reference; [upsert] also calls it to overwrite a leaf's value. *)
Definition setExtChild (n : ref) (v : bytes) : M unit :=
  let* c := deref n in assign n (with_short_value v c).

Definition setValue (n : ref) (v : bytes) : M unit :=
  let* c := deref n in let* c' := must (with_branch_value v c) in assign n c'.

(** Modelled from the spec: [addBranchChild] attaches the child's
    current hash under the nibble [idx]. *)
Definition addBranchChild (n : ref) (idx : string) (child : ref) : M unit :=
  let* c := deref n in
  let* cc := deref child in
  assign n (with_child idx (fst (getNodeHash cc)) c).

(** [getPathLength]: the number of hex chars matched by the nodes of the
    stack, leaves excluded. *)
Fixpoint getPathLength_loop (items : list ref) (l : Z) : M Z :=
  match items with
  | [] => ret l
  | n :: rest =>
      let* c := deref n in
      if isBranch c then getPathLength_loop rest (l + 1)
      else if isExt c then
        let* p := getPath n in getPathLength_loop rest (l + slen p)
      else getPathLength_loop rest l
  end.

Definition getPathLength (s : stack) : M Z :=
  getPathLength_loop (toSlice s) 0.

(** [update]: the loop over [items], with the variables [lastRoot] and
    [pos] it carries.  [NodeType] has the three kinds of node only, so
    the [default] case of the Go switch has no counterpart. *)
Fixpoint update_loop (k : string) (items : list ref)
         (lastRoot : option ref) (pos : Z) : M error :=
  match items with
  | [] => ret None
  | n :: rest =>
      let next (pos : Z) : M error :=
        let* _ := persistNode n in update_loop k rest (Some n) pos in
      let* c := deref n in
      match getNodeType c with
      | NodeType_branch =>
          match lastRoot with
          | Some lr =>
              if (pos <? 0) || (pos =? slen k)
              then ret (Some (errors_New "invalid pos value"))
              else
                let* ch := must (str_index k pos) in
                let idx := string_of_char ch in
                let pos := pos - 1 in
                let* _ := addBranchChild n idx lr in
                next pos
          | None => next pos
          end
      | NodeType_extension =>
          let* p := getPath n in
          let pos := pos - slen p in
          match lastRoot with
          | Some lr =>
              let* lc := deref lr in
              let '(hash, err) := getNodeHash lc in
              match err with
              | Some e => ret (Some e)
              | None => let* _ := setExtChild n hash in next pos
              end
          | None => next pos
          end
      | NodeType_leaf =>
          let* p := getPath n in
          next (pos - slen p)
      end
  end.

Definition update (k : string) (s : stack) : M error :=
  let pos := slen k - 1 in
  if stack_len s =? 0 then ret None
  else update_loop k (toSlice s) None pos.

(** [lastNode.isLeaf()] and [lastNode.isBranch()] on a reference. *)
Definition is_leaf (n : ref) : M bool := let* c := deref n in ret (isLeaf c).
Definition is_branch (n : ref) : M bool := let* c := deref n in ret (isBranch c).

(** [upsert]: besides the error it returns the stack [s], which the Go
    code changes through the pointer it is given. *)
Definition upsert (pos : Z) (k : string) (v : bytes) (s : stack) : M (error * stack) :=
  (* case 1 - empty tree - create leaf and return *)
  if stack_len s =? 0 then
    let* '(newLeaf, err) := newLeafNodeContainer k v in
    match err with
    | Some e => ret (Some e, s)
    | None =>
        let s := push newLeaf s in
        let* _ := persistNode newLeaf in
        ret (None, s)
    end
  else
    let* '(lastNode, s) := must (pop s) in
    (* case 2 - we matched the whole path and got to a leaf *)
    let* leaf := is_leaf lastNode in
    let* exact :=
      (if leaf then
         let* l := getPathLength s in
         let* leafPath := getPath lastNode in
         let* rest := must (str_from k l) in
         let cp := commonPrefix leafPath rest in
         ret ((slen cp =? slen leafPath) && (pos =? slen k))
       else ret false) in
    if exact then
      let* _ := removeNodeFromStore lastNode in
      let* _ := setExtChild lastNode v in
      let s := push lastNode s in
      let* _ := update k s in
      ret (None, s)
    else
    (* case 3 - matched a branch on the path *)
    let* br := is_branch lastNode in
    if br then
      let s := push lastNode s in
      if pos <? slen k then
        let pos := pos + 1 in
        let* rest := must (str_from k pos) in
        let* '(newLeaf, err) := newLeafNodeContainer rest v in
        match err with
        | Some e => ret (Some e, s)
        | None =>
            let s := push newLeaf s in
            let* _ := update k s in
            ret (None, s)
        end
      else
        let* _ := setValue lastNode v in
        let* _ := removeNodeFromStore lastNode in
        let* _ := update k s in
        ret (None, s)
    else
    (* case 4 - matched a leaf or ext node *)
    let* lastNodePath := getPath lastNode in
    let* rest := must (str_from k pos) in
    let cp := commonPrefix lastNodePath rest in
    let cpl := slen cp in
    let* shared :=
      (if 0 <? cpl then
         let* key := must (str_to lastNodePath cpl) in
         let* '(newExtNode, err) := newExtNodeContainer key [] in
         match err with
         | Some e => ret (inl e)
         | None =>
             let s := push newExtNode s in
             let* lastNodePath :=
               (if cpl <? slen lastNodePath
                then must (str_from lastNodePath cpl)
                else ret EmptyString) in
             ret (inr (s, lastNodePath, pos + cpl))
         end
       else ret (inr (s, lastNodePath, pos))) in
    match shared with
    | inl e => ret (Some e, s)
    | inr (s, lastNodePath, pos) =>
    (* add new ext+branch or just branch *)
    let* '(newBranch, err) := newBranchNodeContainer in
    match err with
    | Some e => ret (Some e, s)
    | None =>
    let s := push newBranch s in
    let* err :=
      (if 0 <? slen lastNodePath then
         let* ch := must (str_index lastNodePath 0) in
         let branchChildKey := string_of_char ch in
         let* lastNodePath := must (str_from lastNodePath 1) in
         let* leaf := is_leaf lastNode in
         if (0 <? slen lastNodePath) || leaf then
           (* shrink ext or leaf *)
           let* _ := removeNodeFromStore lastNode in
           let* _ := setPath lastNode lastNodePath in
           let* _ := addBranchChild newBranch branchChildKey lastNode in
           persistNode lastNode
         else
           (* remove ext and set as branch's value *)
           let* _ := removeNodeFromStore lastNode in
           let* val := getValue lastNode in
           let* _ := setValue newBranch val in
           ret None
       else
         (* removed ext or leaf node *)
         let* _ := removeNodeFromStore lastNode in
         let* leaf := is_leaf lastNode in
         if leaf then
           let* val := getValue lastNode in
           let* _ := setValue newBranch val in
           ret None
         else ret None) in
    match err with
    | Some e => ret (Some e, s)
    | None =>
    if pos <? slen k then
      (* we have more to match from the path *)
      let pos := pos + 1 in
      let* rest := must (str_from k pos) in
      let* '(newLeaf, err) := newLeafNodeContainer rest v in
      match err with
      | Some e => ret (Some e, s)
      | None =>
          let s := push newLeaf s in
          let* _ := update k s in
          ret (None, s)
      end
    else
      let* _ := update k s in
      ret (None, s)
    end
    end
    end.

(** [Put], lines 54 to 61: what follows the return of [upsert]. *)
Definition Put_finish (err : error) (stack : stack) : M error :=
  match err with
  | Some e => ret (Some e)
  | None =>
      let nodes := toSlice stack in
      let* r := must (slice_index nodes (stack_len stack - 1)) in
      let* _ := set_root r in
      ret None
  end.

(** [Put], lines 36 to 53: from the call of [Get] to the call of
    [upsert], with the user value computed before.  A nil [res] is the
    empty list; the error [Get] returns is not looked at. *)
Definition Put_insert (k v userValue : bytes) : M error :=
  let* '(res, stack, err) := call_Get k in
  if negb (blen res =? 0) && bytes_Equal res v then
    (* value already stored in db *)
    ret None
  else
    let hexKey := hex_EncodeToString k in
    (* todo - optimize this to avoid iteration over path *)
    let* pos := getPathLength stack in
    let* '(err, stack) := upsert pos hexKey userValue stack in
    Put_finish err stack.

(** [Put]: store user data (k,v). *)
Definition Put (k v : bytes) : M error :=
  if (blen v =? 0) || (blen k =? 0) then ret (Some InvalidUserDataError)
  else if 32 <? blen v then
    (* v is long: persist it in the user db, store its hash in the tree *)
    let* err := persistUserValue v in
    match err with
    | Some e => ret (Some e)
    | None => Put_insert k v (Sha256 v)
    end
  else
    (* v is short: store it in the tree *)
    Put_insert k v v.

End Merkle.


(** * Notions used to state the properties *)

(** [relates R m]: when [m] returns, [R] holds between the tree it
    started from and the tree it leaves. *)
Definition relates {A} (R : relation merkleTreeImp) (m : M A) : Prop :=
  forall mt a mt', m mt = Some (a, mt') -> R mt mt'.

(** The trace has grown by calls that satisfy [P]. *)
Definition appends (P : call -> Prop) : relation merkleTreeImp :=
  fun mt mt' => exists t, calls mt' = calls mt ++ t /\ Forall P t.

(** No node object was created. *)
Definition same_size : relation merkleTreeImp :=
  fun mt mt' => length (objs mt') = length (objs mt).

(** The calls on the node store, and those that persist a node. *)
Definition node_store_call (c : call) : Prop :=
  match c with
  | persistNode_call _ | removeNodeFromStore_call _ => True
  | _ => False
  end.

Definition persist_call (c : call) : Prop :=
  match c with
  | persistNode_call _ => True
  | _ => False
  end.

(** The calls on the value store. *)
Definition value_store_call (c : call) : Prop :=
  match c with
  | persistUserValue_call _ => True
  | _ => False
  end.

Definition is_removeNodeFromStore (c : call) : bool :=
  match c with removeNodeFromStore_call _ => true | _ => false end.

(** The node objects the references of a stack point to. *)
Definition resolves (mt : merkleTreeImp) (s : stack) (nodes : list nodeContainer) : Prop :=
  Forall2 (fun r c => objs mt !! r = Some c) s nodes.

(** What a node of the path stack counts for in [getPathLength]: a
    Branch one nibble, an Extension its path, a Leaf nothing. *)
Definition counted (c : nodeContainer) : Z :=
  match c with
  | BranchContainer _ => 1
  | ExtContainer e => slen (sn_path e)
  | LeafContainer _ => 0
  end.

(** What the specification lets it count for: "Branch contributes 1
    nibble consumed per level, Extension/Leaf contribute the length of
    their stored path". *)
Definition matched_spec (c : nodeContainer) : Z :=
  match c with
  | BranchContainer _ => 1
  | ExtContainer e => slen (sn_path e)
  | LeafContainer l => slen (sn_path l)
  end.

Definition total (f : nodeContainer -> Z) (nodes : list nodeContainer) : Z :=
  fold_right (fun c acc => f c + acc) 0 nodes.

(** The trie-level user value of [v]: [v] itself up to 32 bytes, its
    content hash beyond. *)
Definition userValue (Sha256 : bytes -> bytes) (v : bytes) : bytes :=
  if 32 <? blen v then Sha256 v else v.

(** The tree with one more call in its trace. *)
Definition called (c : call) (mt : merkleTreeImp) : merkleTreeImp :=
  mkTree (objs mt) (root mt) (calls mt ++ [c]).

(** The tree as [Get] finds it in [Put k v]: a long [v] has been handed
    to the value store by then. *)
Definition at_Get (v : bytes) (mt : merkleTreeImp) : merkleTreeImp :=
  if 32 <? blen v then called (persistUserValue_call v) mt else mt.

(** The hash of the root node, if there is one. *)
Definition rootHash (getNodeHash : nodeContainer -> bytes * error)
           (mt : merkleTreeImp) : option bytes :=
  match root mt with
  | Some r =>
      match objs mt !! r with
      | Some c => Some (fst (getNodeHash c))
      | None => None
      end
  | None => None
  end.

(** * Collaborators and trees for the examples *)

(** A stand-in for [crypto.Sha256]: the first 32 bytes of the input
    padded with zeros. *)
Definition example_Sha256 (v : bytes) : bytes :=
  take 32 (v ++ repeat x00 32).

(** A stand-in for the hash of a node: its value field under
    [example_Sha256]; it never fails. *)
Definition example_getNodeHash (c : nodeContainer) : bytes * error :=
  match c with
  | BranchContainer b => (example_Sha256 (bn_value b), None)
  | ExtContainer e => (example_Sha256 (sn_value e), None)
  | LeafContainer l => (example_Sha256 (sn_value l), None)
  end.

(** Stores that accept every call, and a node store that is down. *)
Definition store_accepts (before : list call) (c : call) : error := None.

Definition node_store_down (before : list call) (c : call) : error :=
  match c with
  | persistNode_call _ | removeNodeFromStore_call _ => Some (StoreFailure 1)
  | _ => None
  end.

(** The value the value store holds under the hash [h], found among the
    values handed to it; [h] itself when there is none. *)
Fixpoint load_user_value (h : bytes) (before : list call) : bytes :=
  match before with
  | [] => h
  | persistUserValue_call v :: rest =>
      if bytes_Equal (example_Sha256 v) h then v else load_user_value h rest
  | _ :: rest => load_user_value h rest
  end.

(** Modelled from the spec: [Get] is not part of [put.go].  This is the
    traversal on a tree whose root is absent or a Leaf, the trees of the
    examples: a Leaf matches when its stored path is the key's whole
    nibble path, the value found is dereferenced through the value store,
    and the stack holds the node visited. *)
Definition example_Get (mt : merkleTreeImp) (k : bytes) : bytes * stack * error :=
  match root mt with
  | None => ([], [], None)
  | Some r =>
      match objs mt !! r with
      | Some (LeafContainer l) =>
          if String.eqb (sn_path l) (hex_EncodeToString k)
          then (load_user_value (sn_value l) (calls mt), [r], None)
          else ([], [r], None)
      | _ => ([], [r], None)
      end
  end.

Definition empty_tree : merkleTreeImp := mkTree [] None [].

(** The key "a1" and the value "hello" of the specification's scenario,
    and a value of 40 bytes. *)
Definition key_a1 : bytes := [x61; x31].
Definition hello : bytes := [x68; x65; x6c; x6c; x6f].
Definition long_value : bytes := repeat x6c 40.

Definition example_Put : bytes -> bytes -> M error :=
  Put example_Sha256 example_getNodeHash store_accepts example_Get.

(** The tree after a first [Put] of [v] under [k] into the empty tree. *)
Definition tree_after_Put (k v : bytes) : merkleTreeImp :=
  match example_Put k v empty_tree with
  | Some (_, mt) => mt
  | None => empty_tree
  end.

(** A tree that is one Leaf, on the stack after [Get]. *)
Definition leaf_a1 : nodeContainer := LeafContainer (mkShort "6131" hello).
Definition leaf_tree : merkleTreeImp := mkTree [leaf_a1] (Some 0%nat) [].

(** A tree whose root is a Branch with children under the nibbles "c"
    and "d". *)
Definition branch_c : nodeContainer :=
  BranchContainer
    (mkBranch (<["c" := example_Sha256 hello]> (<["d" := example_Sha256 key_a1]> ∅)) []).
Definition branch_tree : merkleTreeImp := mkTree [branch_c] (Some 0%nat) [].

(** Four Branch nodes on top of each other: more levels than the key
    "ab" has nibbles. *)
Definition empty_branch : nodeContainer := BranchContainer (mkBranch ∅ []).
Definition deep_tree : merkleTreeImp :=
  mkTree [empty_branch; empty_branch; empty_branch; empty_branch] (Some 0%nat) [].
Definition deep_stack : stack := [3%nat; 2%nat; 1%nat; 0%nat].

(** The four Branch nodes with an empty-path Leaf on top: the stack of a
    key of four nibbles that is matched to its end. *)
Definition empty_path_leaf : nodeContainer := LeafContainer (mkShort "" hello).
Definition deep_leaf_tree : merkleTreeImp :=
  mkTree (objs deep_tree ++ [empty_path_leaf]) (Some 0%nat) [].
Definition deep_leaf_stack : stack := 4%nat :: deep_stack.

(** A traversal that answers with the four Branch nodes whatever the key. *)
Definition Get_deep (mt : merkleTreeImp) (k : bytes) : bytes * stack * error :=
  ([], deep_stack, None).

(** The key of one byte whose nibble path is "ab". *)
Definition key_ab : bytes := [xab].

(** The tree [update] leaves when it walks the empty-path Leaf and the
    four Branch nodes for the key "6131". *)
Definition tree_after_update : merkleTreeImp :=
  match update example_getNodeHash store_accepts "6131" deep_leaf_stack deep_leaf_tree with
  | Some (_, mt) => mt
  | None => deep_leaf_tree
  end.

(** No node object was dropped: there are at least as many as before. *)
Definition grows : relation merkleTreeImp :=
  fun mt mt' => (length (objs mt) <= length (objs mt'))%nat.

(** The tree [upsert] leaves when it adds the key "ab" under the Branch
    of [branch_tree]. *)
Definition branch_tree_after_upsert : merkleTreeImp :=
  match upsert example_getNodeHash store_accepts 1 "ab" hello [0%nat] branch_tree with
  | Some (_, mt) => mt
  | None => branch_tree
  end.

(** The key "a2", whose nibble path "6132" parts from "6131" at the last
    nibble, and the tree a [Put] under it leaves of [leaf_tree] when the
    node store is down. *)
Definition key_a2 : bytes := [x61; x32].
Definition leaf_tree_after_failed_Put : merkleTreeImp :=
  match Put example_Sha256 example_getNodeHash node_store_down example_Get
            key_a2 hello leaf_tree with
  | Some (_, mt) => mt
  | None => leaf_tree
  end.

(** The tree a [Put] under "ab" leaves of the four Branch nodes. *)
Definition deep_tree_after_Put : merkleTreeImp :=
  match Put example_Sha256 example_getNodeHash store_accepts Get_deep
            key_ab hello deep_tree with
  | Some (_, mt) => mt
  | None => deep_tree
  end.

(** Nothing was handed to a store and the node object [r] is as it was. *)
Definition quiet (r : ref) : relation merkleTreeImp :=
  fun mt mt' => calls mt' = calls mt /\
                forall c, objs mt !! r = Some c -> objs mt' !! r = Some c.

(** The node [c'] is the node [c] with, at most, other child references:
    the same kind of node, the same stored path, and the same value for a
    Leaf or a Branch. *)
Definition relinked (c c' : nodeContainer) : Prop :=
  match c, c' with
  | BranchContainer b, BranchContainer b' => bn_value b' = bn_value b
  | ExtContainer e, ExtContainer e' => sn_path e' = sn_path e
  | LeafContainer l, LeafContainer l' => l' = l
  | _, _ => False
  end.

(** The tree [upsert] leaves of [leaf_tree] for the key "a2". *)
Definition leaf_tree_after_upsert : merkleTreeImp :=
  match upsert example_getNodeHash store_accepts 0 "6132" hello [0%nat] leaf_tree with
  | Some (_, mt) => mt
  | None => leaf_tree
  end.

(** A stand-in for the hash of a node that tells the kinds of node
    apart: a byte for the kind, then the value field under
    [example_Sha256]; it never fails. *)
Definition tagged_getNodeHash (c : nodeContainer) : bytes * error :=
  match c with
  | BranchContainer b => (x00 :: example_Sha256 (bn_value b), None)
  | ExtContainer e => (x01 :: example_Sha256 (sn_value e), None)
  | LeafContainer l => (x02 :: example_Sha256 (sn_value l), None)
  end.

(** The node object whose content has the hash [h], the first from the
    index [i] on. *)
Fixpoint find_node (getNodeHash : nodeContainer -> bytes * error) (h : bytes)
         (nodes : list nodeContainer) (i : ref) : option ref :=
  match nodes with
  | [] => None
  | c :: rest =>
      if bytes_Equal (fst (getNodeHash c)) h then Some i
      else find_node getNodeHash h rest (S i)
  end.

(** Modelled from the spec: [Get] is not part of [put.go].  The descent
    of the traversal from the node [r] with the nibbles [rest] of the key
    left to match, [s] being the nodes visited so far: at a Branch it
    consumes one nibble and follows the matching child if present; at an
    Extension or a Leaf it compares the stored path with the remaining
    nibbles, a full match ends at the Leaf or descends through the child of
    the Extension, anything else ends the traversal.  The value is the one
    of the Leaf or of the Branch the whole key was matched at, [nil]
    otherwise; a child is the node object whose content has the hash the
    parent refers to. *)
Fixpoint spec_walk (getNodeHash : nodeContainer -> bytes * error) (fuel : nat)
         (mt : merkleTreeImp) (r : ref) (rest : string) (s : stack) : bytes * stack :=
  match fuel with
  | O => ([], s)
  | S fuel' =>
      match objs mt !! r with
      | None => ([], s)
      | Some c =>
          let s := push r s in
          let descend (h : bytes) (rest : string) :=
            match find_node getNodeHash h (objs mt) 0%nat with
            | Some child => spec_walk getNodeHash fuel' mt child rest s
            | None => ([], s)
            end in
          match c with
          | BranchContainer b =>
              match rest with
              | EmptyString => (bn_value b, s)
              | String ch rest' =>
                  match bn_children b !! string_of_char ch with
                  | Some h => descend h rest'
                  | None => ([], s)
                  end
              end
          | ExtContainer e =>
              if slen (commonPrefix (sn_path e) rest) =? slen (sn_path e)
              then descend (sn_value e) (sdrop (String.length (sn_path e)) rest)
              else ([], s)
          | LeafContainer l =>
              if String.eqb (sn_path l) rest then (sn_value l, s) else ([], s)
          end
      end
  end.

(** Modelled from the spec: [Get] is not part of [put.go].  The traversal
    from the root with the nibble path of the key; the value found is
    dereferenced through the value store, and an empty key is refused. *)
Definition spec_Get (getNodeHash : nodeContainer -> bytes * error)
           (mt : merkleTreeImp) (k : bytes) : bytes * stack * error :=
  if blen k =? 0 then ([], [], Some InvalidUserDataError)
  else
    match root mt with
    | None => ([], [], None)
    | Some r =>
        let hexKey := hex_EncodeToString k in
        let '(value, s) :=
          spec_walk getNodeHash (S (String.length hexKey)) mt r hexKey [] in
        (load_user_value value (calls mt), s, None)
    end.

(** The value "world", and [Put] with the traversal of the specification
    and stores that accept every call. *)
Definition world : bytes := [x77; x6f; x72; x6c; x64].

Definition traversing_Put : bytes -> bytes -> M error :=
  Put example_Sha256 tagged_getNodeHash store_accepts (spec_Get tagged_getNodeHash).

(** The tree that holds "hello" under the key "a1", the tree one [Put] of
    "world" under "a1" leaves of it, and the tree a second one leaves. *)
Definition tree_hello : merkleTreeImp :=
  match traversing_Put key_a1 hello empty_tree with
  | Some (_, mt) => mt
  | None => empty_tree
  end.

Definition tree_world_once : merkleTreeImp :=
  match traversing_Put key_a1 world tree_hello with
  | Some (_, mt) => mt
  | None => tree_hello
  end.

Definition tree_world_twice : merkleTreeImp :=
  match traversing_Put key_a1 world tree_world_once with
  | Some (_, mt) => mt
  | None => tree_world_once
  end.

(** * Notions used to state further properties *)

(** The content of the node [lastRoot] points to, if there is one. *)
Definition content_of (mt : merkleTreeImp) (o : option ref) : option nodeContainer :=
  match o with
  | Some r => objs mt !! r
  | None => None
  end.

(** What the body of the loop of [update] does with one node, read off
    lines 81 to 118: from the content [c] of the node, the content [last]
    of [lastRoot] and the cursor [pos], the error it returns, or the
    content it persists and the cursor it goes on with.  [None] is the
    panic of [k[pos]]. *)
Definition relink (getNodeHash : nodeContainer -> bytes * error) (k : string)
           (c : nodeContainer) (last : option nodeContainer) (pos : Z)
  : option (error_value + nodeContainer * Z) :=
  match c with
  | BranchContainer _ =>
      match last with
      | Some lc =>
          if (pos <? 0) || (pos =? slen k)
          then Some (inl (errors_New "invalid pos value"))
          else match str_index k pos with
               | Some ch =>
                   Some (inr (with_child (string_of_char ch) (fst (getNodeHash lc)) c,
                              pos - 1))
               | None => None
               end
      | None => Some (inr (c, pos))
      end
  | ExtContainer e =>
      match last with
      | Some lc =>
          match getNodeHash lc with
          | (_, Some err) => Some (inl err)
          | (hash, None) => Some (inr (with_short_value hash c, pos - slen (sn_path e)))
          end
      | None => Some (inr (c, pos - slen (sn_path e)))
      end
  | LeafContainer l => Some (inr (c, pos - slen (sn_path l)))
  end.

(** The node [parent] refers to the hash of the node [child]: an
    Extension as its child reference, a Branch under one of its nibbles. *)
Definition linked (getNodeHash : nodeContainer -> bytes * error)
           (child parent : nodeContainer) : Prop :=
  match parent with
  | BranchContainer b => exists idx, bn_children b !! idx = Some (fst (getNodeHash child))
  | ExtContainer e => sn_value e = fst (getNodeHash child)
  | LeafContainer _ => True
  end.

(** Every node of the list, from the top of the stack down, is referred
    to by the node after it. *)
Fixpoint chained (getNodeHash : nodeContainer -> bytes * error)
         (nodes : list nodeContainer) : Prop :=
  match nodes with
  | child :: rest =>
      match rest with
      | parent :: _ => linked getNodeHash child parent
      | [] => True
      end /\ chained getNodeHash rest
  | [] => True
  end.

(** The root pointer is the same. *)
Definition same_root : relation merkleTreeImp :=
  fun mt mt' => root mt' = root mt.

(** * Properties *)

(** ** Relating the tree before and after a computation *)

Section Relates.

Context (R : relation merkleTreeImp) `{!PreOrder R}.

Lemma relates_ret {A} (a : A) : relates R (ret a).
Proof. intros mt a' mt' H. injection H as _ <-. reflexivity. Qed.

Lemma relates_bind {A B} (m : M A) (f : A -> M B) :
  relates R m -> (forall a, relates R (f a)) -> relates R (bind m f).
Proof.
  intros Hm Hf mt b mt2. unfold bind.
  destruct (m mt) as [[a mt1]|] eqn:E; [|done].
  intros H2. transitivity mt1; [by eapply Hm|by eapply Hf].
Qed.

Lemma relates_must {A} (o : option A) : relates R (must o).
Proof.
  intros mt a mt'. unfold must. destruct o; [|done].
  intros H. injection H as _ <-. reflexivity.
Qed.

Lemma relates_deref n : relates R (deref n).
Proof.
  intros mt a mt'. unfold deref. destruct (objs mt !! n); [|done].
  intros H. injection H as _ <-. reflexivity.
Qed.

(** [R] allows the in-place change of a node object and the calls that
    satisfy [P]. *)
Context (P : call -> Prop)
        (R_assign : forall mt n c,
            R mt (mkTree (<[n := c]> (objs mt)) (root mt) (calls mt)))
        (R_called : forall mt c, P c -> R mt (called c mt)).

Context (getNodeHash : nodeContainer -> bytes * error)
        (storeAnswer : list call -> call -> error).

Lemma relates_assign n c : relates R (assign n c).
Proof. intros mt a mt' H. injection H as _ <-. apply R_assign. Qed.

Lemma relates_invoke c : P c -> relates R (invoke storeAnswer c).
Proof. intros Hc mt a mt' H. injection H as _ <-. by apply R_called. Qed.

(** Decomposes a goal [relates R m] along the structure of [m]. *)
Ltac relates_step :=
  first
    [ apply relates_ret | apply relates_must | apply relates_deref
    | apply relates_assign
    | apply relates_invoke; solve [auto]
    | apply relates_bind; [|intros ?]
    | match goal with
      | |- relates _ (match ?x with _ => _ end) => destruct x
      end
    | progress cbv zeta ].

Lemma relates_persistNode n :
  (forall c, persist_call c -> P c) -> relates R (persistNode storeAnswer n).
Proof.
  intros HP. unfold persistNode. apply relates_bind; [apply relates_deref|].
  intros c. apply relates_invoke, HP. exact I.
Qed.

Lemma relates_removeNodeFromStore n :
  (forall c, node_store_call c -> P c) ->
  relates R (removeNodeFromStore storeAnswer n).
Proof.
  intros HP. unfold removeNodeFromStore. apply relates_bind; [apply relates_deref|].
  intros c. apply relates_invoke, HP. exact I.
Qed.

Lemma relates_getPath n : relates R (getPath n).
Proof. unfold getPath. repeat relates_step. Qed.

Lemma relates_getPathLength s : relates R (getPathLength s).
Proof.
  unfold getPathLength, toSlice. generalize 0.
  induction s as [|n rest IH]; intros l; simpl.
  - apply relates_ret.
  - apply relates_bind; [apply relates_deref|]. intros c.
    destruct (isBranch c); [apply IH|].
    destruct (isExt c); [|apply IH].
    apply relates_bind; [apply relates_getPath|]. intros p. apply IH.
Qed.

Lemma relates_update_loop k items lastRoot pos :
  (forall c, persist_call c -> P c) ->
  relates R (update_loop getNodeHash storeAnswer k items lastRoot pos).
Proof.
  intros HP. revert lastRoot pos.
  induction items as [|n rest IH]; intros lastRoot pos; simpl.
  - apply relates_ret.
  - assert (Hnext : forall p, relates R
        (let* _ := persistNode storeAnswer n in
         update_loop getNodeHash storeAnswer k rest (Some n) p)).
    { intros p. apply relates_bind; [by apply relates_persistNode|].
      intros _. apply IH. }
    apply relates_bind; [apply relates_deref|]. intros c.
    destruct (getNodeType c).
    + destruct lastRoot as [lr|]; [|apply Hnext].
      destruct ((pos <? 0) || (pos =? slen k)); [apply relates_ret|].
      apply relates_bind; [apply relates_must|]. intros ch.
      apply relates_bind; [|intros _; apply Hnext].
      unfold addBranchChild. repeat relates_step.
    + apply relates_bind; [apply relates_getPath|]. intros p.
      destruct lastRoot as [lr|]; [|apply Hnext].
      apply relates_bind; [apply relates_deref|]. intros lc.
      destruct (getNodeHash lc) as [hash [e|]]; [apply relates_ret|].
      apply relates_bind; [|intros _; apply Hnext].
      unfold setExtChild. repeat relates_step.
    + apply relates_bind; [apply relates_getPath|]. intros p. apply Hnext.
Qed.

Lemma relates_update k s :
  (forall c, persist_call c -> P c) ->
  relates R (update getNodeHash storeAnswer k s).
Proof.
  intros HP. unfold update. destruct (stack_len s =? 0); [apply relates_ret|].
  by apply relates_update_loop.
Qed.

(** [upsert] also creates node objects and removes nodes from the store. *)
Lemma relates_upsert pos k v s :
  (forall mt c, R mt (mkTree (objs mt ++ [c]) (root mt) (calls mt))) ->
  (forall c, node_store_call c -> P c) ->
  relates R (upsert getNodeHash storeAnswer pos k v s).
Proof.
  intros R_alloc HP.
  assert (HP' : forall c, persist_call c -> P c).
  { intros c Hc. apply HP. by destruct c. }
  assert (Halloc : forall c, relates R (alloc c)).
  { intros c mt a mt' H. injection H as _ <-. apply R_alloc. }
  unfold upsert.
  repeat first
    [ apply Halloc
    | apply relates_persistNode; exact HP'
    | apply relates_removeNodeFromStore; exact HP
    | apply relates_update; exact HP'
    | apply relates_getPathLength
    | relates_step
    | progress unfold newLeafNodeContainer, newExtNodeContainer,
        newBranchNodeContainer, getPath, getValue, setPath, setExtChild,
        setValue, addBranchChild, is_leaf, is_branch ].
Qed.

End Relates.

(** ** What the code adds to the trace, and where it creates no node *)

#[local] Instance appends_preorder (P : call -> Prop) : PreOrder (appends P).
Proof.
  split.
  - intros mt. exists []. by rewrite app_nil_r.
  - intros mt1 mt2 mt3 (t1 & E1 & F1) (t2 & E2 & F2). exists (t1 ++ t2). split.
    + by rewrite E2, E1, app_assoc.
    + by apply Forall_app.
Qed.

#[local] Instance same_size_preorder : PreOrder same_size.
Proof.
  split.
  - by intros mt.
  - intros mt1 mt2 mt3 H1 H2. unfold same_size in *. congruence.
Qed.

Lemma appends_assign P mt n c :
  appends P mt (mkTree (<[n := c]> (objs mt)) (root mt) (calls mt)).
Proof. exists []. by rewrite app_nil_r. Qed.

Lemma appends_alloc P mt c :
  appends P mt (mkTree (objs mt ++ [c]) (root mt) (calls mt)).
Proof. exists []. by rewrite app_nil_r. Qed.

Lemma appends_called (P : call -> Prop) mt c : P c -> appends P mt (called c mt).
Proof. intros Hc. exists [c]. split; [done|]. by apply Forall_singleton. Qed.

Section Traces.

Context (getNodeHash : nodeContainer -> bytes * error)
        (storeAnswer : list call -> call -> error)
        (Get : merkleTreeImp -> bytes -> bytes * stack * error).

Lemma update_appends_persists k s :
  relates (appends persist_call) (update getNodeHash storeAnswer k s).
Proof.
  apply (relates_update _ persist_call); auto using appends_assign, appends_called.
Qed.

Lemma update_same_size k s :
  relates same_size (update getNodeHash storeAnswer k s).
Proof.
  apply (relates_update same_size (fun _ => True)).
  - intros mt n c. unfold same_size. simpl. by rewrite length_insert.
  - by intros mt c _.
  - done.
Qed.

Lemma upsert_appends_node_store_calls pos k v s :
  relates (appends node_store_call) (upsert getNodeHash storeAnswer pos k v s).
Proof.
  apply (relates_upsert _ node_store_call);
    auto using appends_assign, appends_alloc, appends_called.
Qed.

(** [Put_insert] first consults the tree, then only calls the node store. *)
Lemma Put_insert_trace k v uv mt err mt' :
  Put_insert getNodeHash storeAnswer Get k v uv mt = Some (err, mt') ->
  exists t, calls mt' = calls mt ++ Get_call k :: t /\ Forall node_store_call t.
Proof.
  unfold Put_insert, call_Get. unfold bind at 1.
  destruct (Get mt k) as [[res stack] e].
  intros H.
  match type of H with
  | ?m ?st = _ => assert (HR : relates (appends node_store_call) m)
  end.
  { destruct (negb (blen res =? 0) && bytes_Equal res v).
    - apply relates_ret; apply _.
    - cbv zeta.
      apply relates_bind; [apply _|apply relates_getPathLength; apply _|].
      intros pos.
      apply relates_bind; [apply _|apply upsert_appends_node_store_calls|].
      intros [e' s']. unfold Put_finish. destruct e'; [apply relates_ret; apply _|].
      cbv zeta. apply relates_bind; [apply _|apply relates_must; apply _|].
      intros r. apply relates_bind; [apply _| |intros _; apply relates_ret; apply _].
      intros mt2 a mt3 H3. injection H3 as _ <-. exists []. by rewrite app_nil_r. }
  apply HR in H. destruct H as (t & E & F). exists t. split; [|done].
  rewrite E. simpl. by rewrite <- app_assoc.
Qed.

End Traces.

(** ** Bytes, strings and stacks *)

Lemma bytes_Equal_eq (a b : bytes) : bytes_Equal a b = true <-> a = b.
Proof.
  revert b. induction a as [|x a IH]; intros [|y b]; simpl; try (split; [done|done]).
  rewrite andb_true_iff, IH. split.
  - intros [Hxy ->]. f_equal. by apply Byte.byte_dec_bl.
  - intros [= -> ->]. split; [by apply Byte.byte_dec_lb|done].
Qed.

Lemma blen_eqb_0 (b : bytes) : (blen b =? 0) = true <-> b = [].
Proof.
  unfold blen. destruct b; simpl; split; done.
Qed.

Lemma commonPrefix_diag (p : string) : commonPrefix p p = p.
Proof.
  induction p as [|c p IH]; simpl; [done|].
  by rewrite Ascii.eqb_refl, IH.
Qed.

Lemma lookup_alloc (l : list nodeContainer) (c : nodeContainer) :
  (l ++ [c]) !! length l = Some c.
Proof. by rewrite list_lookup_middle. Qed.

(** ** [getPathLength] *)

Lemma getPathLength_loop_counted mt items nodes l :
  resolves mt items nodes ->
  getPathLength_loop items l mt = Some (l + total counted nodes, mt).
Proof.
  intros H. revert l. induction H as [|r c items nodes Hr _ IH]; intros l; simpl.
  - unfold ret. by rewrite Z.add_0_r.
  - unfold bind at 1. unfold deref. rewrite Hr.
    destruct c as [b|e|lf]; simpl.
    + by rewrite IH, Z.add_assoc.
    + unfold getPath, bind, deref, must, ret. rewrite Hr. simpl.
      by rewrite IH, Z.add_assoc.
    + by rewrite IH.
Qed.

(** ** Running the primitives *)

Lemma bind_run {A B} (m : M A) (f : A -> M B) mt a mt1 :
  m mt = Some (a, mt1) -> bind m f mt = f a mt1.
Proof. intros H. unfold bind. by rewrite H. Qed.

Lemma deref_run mt r c : objs mt !! r = Some c -> deref r mt = Some (c, mt).
Proof. intros H. unfold deref. by rewrite H. Qed.

Lemma getPath_run mt r c sn :
  objs mt !! r = Some c -> getShortNode c = Some sn ->
  getPath r mt = Some (sn_path sn, mt).
Proof.
  intros Hr Hsn. unfold getPath.
  rewrite (bind_run _ _ _ _ _ (deref_run _ _ _ Hr)). by rewrite Hsn.
Qed.

Lemma setExtChild_run mt n v c :
  objs mt !! n = Some c ->
  setExtChild n v mt =
  Some (tt, mkTree (<[n := with_short_value v c]> (objs mt)) (root mt) (calls mt)).
Proof.
  intros Hn. unfold setExtChild.
  by rewrite (bind_run _ _ _ _ _ (deref_run _ _ _ Hn)).
Qed.

Lemma addBranchChild_run getNodeHash mt n idx child c cc :
  objs mt !! n = Some c -> objs mt !! child = Some cc ->
  addBranchChild getNodeHash n idx child mt =
  Some (tt, mkTree (<[n := with_child idx (fst (getNodeHash cc)) c]> (objs mt))
                   (root mt) (calls mt)).
Proof.
  intros Hn Hc. unfold addBranchChild.
  rewrite (bind_run _ _ _ _ _ (deref_run _ _ _ Hn)).
  by rewrite (bind_run _ _ _ _ _ (deref_run _ _ _ Hc)).
Qed.

Lemma bind_assoc {A B C} (m : M A) (f : A -> M B) (g : B -> M C) mt :
  bind (bind m f) g mt = bind m (fun a => bind (f a) g) mt.
Proof. unfold bind. by destruct (m mt) as [[a mt1]|]. Qed.

Lemma is_leaf_run mt r c : objs mt !! r = Some c -> is_leaf r mt = Some (isLeaf c, mt).
Proof.
  intros Hr. unfold is_leaf. by rewrite (bind_run _ _ _ _ _ (deref_run _ _ _ Hr)).
Qed.

Lemma is_branch_run mt r c : objs mt !! r = Some c -> is_branch r mt = Some (isBranch c, mt).
Proof.
  intros Hr. unfold is_branch. by rewrite (bind_run _ _ _ _ _ (deref_run _ _ _ Hr)).
Qed.

Lemma removeNodeFromStore_run storeAnswer mt r c :
  objs mt !! r = Some c ->
  removeNodeFromStore storeAnswer r mt =
  Some (storeAnswer (calls mt) (removeNodeFromStore_call c),
        called (removeNodeFromStore_call c) mt).
Proof.
  intros Hr. unfold removeNodeFromStore.
  by rewrite (bind_run _ _ _ _ _ (deref_run _ _ _ Hr)).
Qed.

Lemma str_index_in_range k i :
  0 <= i < slen k -> exists c, str_index k i = Some c.
Proof.
  intros Hi. unfold str_index.
  destruct (i <? 0) eqn:E1; [lia|]. destruct (slen k <=? i) eqn:E2; [lia|]. simpl.
  assert (Hn : (Z.to_nat i < String.length k)%nat) by (unfold slen in Hi; lia).
  clear -Hn. revert Hn. generalize (Z.to_nat i). intros n.
  revert n. induction k as [|c k IH]; intros n Hn; simpl in *; [lia|].
  destruct n; [by eexists|]. apply IH. lia.
Qed.

(** ** [update] returns on a stack of node objects *)

Section Update.

Context (getNodeHash : nodeContainer -> bytes * error)
        (storeAnswer : list call -> call -> error).

Lemma persistNode_returns n mt :
  (n < length (objs mt))%nat ->
  exists e mt', persistNode storeAnswer n mt = Some (e, mt') /\
                objs mt' = objs mt.
Proof.
  intros Hn. destruct (lookup_lt_is_Some_2 _ _ Hn) as [c Hc].
  unfold persistNode. rewrite (bind_run _ _ _ _ _ (deref_run _ _ _ Hc)).
  by eexists _, _.
Qed.

Lemma update_loop_returns k items lastRoot pos mt :
  Forall (fun r => (r < length (objs mt))%nat) items ->
  (forall lr, lastRoot = Some lr -> (lr < length (objs mt))%nat) ->
  pos < slen k ->
  exists e mt', update_loop getNodeHash storeAnswer k items lastRoot pos mt = Some (e, mt').
Proof.
  intros Hitems. revert mt lastRoot pos Hitems.
  induction items as [|n rest IH]; intros mt lastRoot pos Hitems Hlr Hpos; simpl.
  - by eexists _, _.
  - apply Forall_cons in Hitems as [Hn Hrest].
    destruct (lookup_lt_is_Some_2 _ _ Hn) as [c Hc].
    assert (Hnext : forall p mt1, length (objs mt1) = length (objs mt) -> p < slen k ->
      exists e mt', (let* _ := persistNode storeAnswer n in
                     update_loop getNodeHash storeAnswer k rest (Some n) p) mt1
                    = Some (e, mt')).
    { intros p mt1 Hlen Hp.
      destruct (persistNode_returns n mt1) as (e1 & mt2 & Hp1 & Ho); [lia|].
      rewrite (bind_run _ _ _ _ _ Hp1). apply IH.
      - rewrite Ho, Hlen. done.
      - intros lr [= <-]. rewrite Ho. lia.
      - done. }
    rewrite (bind_run _ _ _ _ _ (deref_run _ _ _ Hc)).
    destruct c as [b|e|l]; simpl.
    + destruct lastRoot as [lr|]; [|by apply Hnext].
      destruct ((pos <? 0) || (pos =? slen k)) eqn:Echk; [by eexists _, _|].
      apply orb_false_elim in Echk as [E1 E2].
      destruct (str_index_in_range k pos) as [ch Hch]; [lia|].
      rewrite Hch. rewrite (bind_run _ _ mt ch mt eq_refl).
      specialize (Hlr lr eq_refl).
      destruct (lookup_lt_is_Some_2 _ _ Hlr) as [lc Hlc].
      rewrite (bind_run _ _ _ _ _ (addBranchChild_run _ _ _ _ _ _ _ Hc Hlc)).
      apply Hnext; [simpl; by rewrite length_insert|lia].
    + rewrite (bind_run _ _ _ _ _ (getPath_run _ _ _ e Hc eq_refl)).
      assert (Hp : pos - slen (sn_path e) < slen k) by (unfold slen in *; lia).
      destruct lastRoot as [lr|]; [|by apply Hnext].
      specialize (Hlr lr eq_refl).
      destruct (lookup_lt_is_Some_2 _ _ Hlr) as [lc Hlc].
      rewrite (bind_run _ _ _ _ _ (deref_run _ _ _ Hlc)).
      destruct (getNodeHash lc) as [hash [err|]]; [by eexists _, _|].
      rewrite (bind_run _ _ _ _ _ (setExtChild_run _ _ _ _ Hc)).
      apply Hnext; [simpl; by rewrite length_insert|done].
    + rewrite (bind_run _ _ _ _ _ (getPath_run _ _ _ l Hc eq_refl)).
      apply Hnext; [done|unfold slen in *; lia].
Qed.

Lemma update_returns k s mt :
  Forall (fun r => (r < length (objs mt))%nat) s ->
  exists e mt', update getNodeHash storeAnswer k s mt = Some (e, mt').
Proof.
  intros Hs. unfold update. destruct (stack_len s =? 0); [by eexists _, _|].
  apply update_loop_returns; [done|done|lia].
Qed.

End Update.

(** ** [upsert] on the empty stack *)

Lemma upsert_on_empty_stack getNodeHash storeAnswer pos k v mt :
  upsert getNodeHash storeAnswer pos k v [] mt =
  Some ((None, [length (objs mt)]),
        mkTree (objs mt ++ [LeafContainer (mkShort k v)]) (root mt)
               (calls mt ++ [persistNode_call (LeafContainer (mkShort k v))])).
Proof.
  unfold upsert. change (stack_len [] =? 0) with true. cbv iota.
  unfold newLeafNodeContainer. rewrite bind_assoc.
  unfold bind at 1. unfold alloc at 1. unfold bind at 1. unfold ret at 1.
  cbv beta iota zeta. unfold persistNode. rewrite bind_assoc.
  unfold bind at 1. unfold deref at 1. cbn [objs].
  by rewrite lookup_alloc.
Qed.

(** * The claims *)

Section Claims.

Context (Sha256 : bytes -> bytes)
        (getNodeHash : nodeContainer -> bytes * error)
        (storeAnswer : list call -> call -> error)
        (Get : merkleTreeImp -> bytes -> bytes * stack * error).

Lemma Put_insert_not_stored k v uv mt res stack err :
  Get mt k = (res, stack, err) ->
  negb (blen res =? 0) && bytes_Equal res v = false ->
  Put_insert getNodeHash storeAnswer Get k v uv mt =
  (let* pos := getPathLength stack in
   let* '(err, stack) := upsert getNodeHash storeAnswer pos (hex_EncodeToString k) uv stack in
   Put_finish err stack) (called (Get_call k) mt).
Proof.
  intros HG Hne. unfold Put_insert, call_Get. unfold bind at 1.
  rewrite HG, Hne. reflexivity.
Qed.

(** C2, as the code has it: for the stack [Get] returns, the [pos] that
    [Put] passes to [upsert] is the sum over the nodes of the stack of 1
    for a Branch, the length of its stored path for an Extension, and 0
    for a Leaf. *)
Theorem Put_pos_counts_branches_and_extensions k v uv mt res stack err nodes :
  Get mt k = (res, stack, err) ->
  negb (blen res =? 0) && bytes_Equal res v = false ->
  resolves mt stack nodes ->
  getPathLength stack mt = Some (total counted nodes, mt) /\
  Put_insert getNodeHash storeAnswer Get k v uv mt =
  (let* '(err, stack) :=
     upsert getNodeHash storeAnswer (total counted nodes) (hex_EncodeToString k) uv stack in
   Put_finish err stack) (called (Get_call k) mt).
Proof.
  intros HG Hne Hres.
  assert (Hlen : forall mt', objs mt' = objs mt ->
            getPathLength stack mt' = Some (total counted nodes, mt')).
  { intros mt' Ho. unfold getPathLength, toSlice.
    rewrite (getPathLength_loop_counted mt' stack nodes 0); [done|].
    unfold resolves. by rewrite Ho. }
  split; [by apply Hlen|].
  rewrite (Put_insert_not_stored _ _ _ _ _ _ _ HG Hne).
  unfold bind at 1. by rewrite Hlen.
Qed.

(** C6: [Put] with an empty key or an empty value returns
    [InvalidUserDataError]; the tree, its node objects and the trace of
    store and traversal calls are as they were. *)
Theorem Put_rejects_empty (k v : bytes) (mt : merkleTreeImp) :
  k = [] \/ v = [] ->
  Put Sha256 getNodeHash storeAnswer Get k v mt = Some (Some InvalidUserDataError, mt).
Proof.
  intros [-> | ->]; unfold Put; simpl.
  - by rewrite orb_true_r.
  - done.
Qed.

(** C9: on an empty stack [upsert] creates a Leaf with path [k] and value
    [v], pushes it as the only entry of the stack and persists it; the
    trace grows by that one call, no other node changes, and no error is
    returned. *)
Theorem upsert_empty_tree (pos : Z) (k : string) (v : bytes) (mt : merkleTreeImp) :
  upsert getNodeHash storeAnswer pos k v [] mt =
  Some ((None, [length (objs mt)]),
        mkTree (objs mt ++ [LeafContainer (mkShort k v)]) (root mt)
               (calls mt ++ [persistNode_call (LeafContainer (mkShort k v))])).
Proof.
  unfold upsert. simpl.
  unfold newLeafNodeContainer, persistNode, invoke, bind, alloc, deref, ret. simpl.
  by rewrite lookup_alloc.
Qed.

Lemma Put_short k v mt :
  k <> [] -> v <> [] -> blen v <= 32 ->
  Put Sha256 getNodeHash storeAnswer Get k v mt =
  Put_insert getNodeHash storeAnswer Get k v v mt.
Proof.
  intros Hk Hv Hlen. unfold Put.
  destruct (blen v =? 0) eqn:Ev; [by apply blen_eqb_0 in Ev|].
  destruct (blen k =? 0) eqn:Ek; [by apply blen_eqb_0 in Ek|].
  simpl. destruct (32 <? blen v) eqn:E; [lia|done].
Qed.

Lemma Put_long k v mt :
  k <> [] -> 32 < blen v ->
  Put Sha256 getNodeHash storeAnswer Get k v mt =
  match storeAnswer (calls mt) (persistUserValue_call v) with
  | Some e => Some (Some e, called (persistUserValue_call v) mt)
  | None =>
      Put_insert getNodeHash storeAnswer Get k v (Sha256 v)
                 (called (persistUserValue_call v) mt)
  end.
Proof.
  intros Hk Hlen. unfold Put.
  destruct (blen v =? 0) eqn:Ev; [lia|].
  destruct (blen k =? 0) eqn:Ek; [by apply blen_eqb_0 in Ek|].
  simpl. destruct (32 <? blen v) eqn:E; [|lia].
  unfold bind, persistUserValue, invoke, called.
  by destruct (storeAnswer _ _).
Qed.

Lemma Put_insert_stored k v uv mt :
  v <> [] -> (Get mt k).1.1 = v ->
  Put_insert getNodeHash storeAnswer Get k v uv mt = Some (None, called (Get_call k) mt).
Proof.
  intros Hv HG. unfold Put_insert, call_Get. unfold bind at 1.
  destruct (Get mt k) as [[res stack] err]. simpl in HG. subst res.
  destruct (blen v =? 0) eqn:Ev; [by apply blen_eqb_0 in Ev|].
  assert (Heq : bytes_Equal v v = true) by by apply bytes_Equal_eq.
  by rewrite Heq.
Qed.

(** X19: when the value stored under a non-empty key [k] is the non-empty
    value [v], [Put k v] returns, changes neither the root nor any node
    object, and makes no call on the node store, so that the root hash is
    the one before the call.  Its result is [nil], or the answer of the
    value store when [v] is longer than 32 bytes and the value store
    fails.  So when a first [Put k v] left the tree in that state, [Put k
    v] followed by [Put k v] gives the root hash the first call gave. *)
Theorem Put_stored_value_is_noop (k v : bytes) (mt : merkleTreeImp) :
  k <> [] -> v <> [] ->
  (Get (at_Get v mt) k).1.1 = v ->
  (exists err mt',
     Put Sha256 getNodeHash storeAnswer Get k v mt = Some (err, mt') /\
     err = (if 32 <? blen v
            then storeAnswer (calls mt) (persistUserValue_call v)
            else None) /\
     root mt' = root mt /\ objs mt' = objs mt /\
     (exists t, calls mt' = calls mt ++ t /\ Forall (fun c => ~ node_store_call c) t) /\
     rootHash getNodeHash mt' = rootHash getNodeHash mt) /\
  (forall mt0 err0,
     Put Sha256 getNodeHash storeAnswer Get k v mt0 = Some (err0, mt) ->
     exists err mt',
       (let* _ := Put Sha256 getNodeHash storeAnswer Get k v in
        Put Sha256 getNodeHash storeAnswer Get k v) mt0 = Some (err, mt') /\
       rootHash getNodeHash mt' = rootHash getNodeHash mt).
Proof.
  intros Hk Hv HG. unfold at_Get in HG.
  assert (Hnoop : exists err mt',
     Put Sha256 getNodeHash storeAnswer Get k v mt = Some (err, mt') /\
     err = (if 32 <? blen v
            then storeAnswer (calls mt) (persistUserValue_call v)
            else None) /\
     root mt' = root mt /\ objs mt' = objs mt /\
     (exists t, calls mt' = calls mt ++ t /\ Forall (fun c => ~ node_store_call c) t) /\
     rootHash getNodeHash mt' = rootHash getNodeHash mt).
  { destruct (32 <? blen v) eqn:E.
    - rewrite Put_long by (done || lia).
      destruct (storeAnswer (calls mt) (persistUserValue_call v)) as [e|].
      + eexists _, _. split; [done|]. repeat split; try done.
        eexists. split; [done|]. apply Forall_singleton. by intros [].
      + rewrite (Put_insert_stored _ _ _ _ Hv HG).
        eexists _, _. split; [done|]. repeat split; try done.
        exists [persistUserValue_call v; Get_call k]. simpl. split.
        * by rewrite <- app_assoc.
        * repeat constructor; by intros [].
    - rewrite Put_short by (done || lia).
      rewrite (Put_insert_stored _ _ _ _ Hv HG).
      eexists _, _. split; [done|]. repeat split; try done.
      eexists. split; [done|]. apply Forall_singleton. by intros []. }
  split; [exact Hnoop|].
  intros mt0 err0 H0. destruct Hnoop as (err & mt' & HP & _ & _ & _ & _ & Hh).
  exists err, mt'. split; [|exact Hh].
  by rewrite (bind_run _ _ _ _ _ H0).
Qed.

(** C7: for a non-empty key and value, a value of at most 32 bytes is
    itself the user value handed to the tree and [Put] makes no call on
    the value store; a value of more than 32 bytes is handed to the value
    store first, and when the store accepts it the user value is its
    content hash, of 32 bytes when [Sha256] gives 32 bytes (when it does
    not accept it, [Put] returns the store's error). *)
Theorem Put_user_value (k v : bytes) (mt : merkleTreeImp) :
  k <> [] -> v <> [] ->
  (blen v <= 32 ->
     userValue Sha256 v = v /\
     Put Sha256 getNodeHash storeAnswer Get k v mt =
       Put_insert getNodeHash storeAnswer Get k v v mt /\
     forall err mt', Put Sha256 getNodeHash storeAnswer Get k v mt = Some (err, mt') ->
       exists t, calls mt' = calls mt ++ t /\ Forall (fun c => ~ value_store_call c) t) /\
  (32 < blen v ->
     userValue Sha256 v = Sha256 v /\
     ((forall b, blen (Sha256 b) = 32) -> blen (userValue Sha256 v) = 32) /\
     match storeAnswer (calls mt) (persistUserValue_call v) with
     | Some e =>
         Put Sha256 getNodeHash storeAnswer Get k v mt =
           Some (Some e, called (persistUserValue_call v) mt)
     | None =>
         Put Sha256 getNodeHash storeAnswer Get k v mt =
           Put_insert getNodeHash storeAnswer Get k v (Sha256 v)
                      (called (persistUserValue_call v) mt)
     end /\
     forall err mt', Put Sha256 getNodeHash storeAnswer Get k v mt = Some (err, mt') ->
       exists t, calls mt' = calls mt ++ persistUserValue_call v :: t /\
                 Forall (fun c => ~ value_store_call c) t).
Proof.
  intros Hk Hv. split; intros Hlen.
  - split; [|split].
    + unfold userValue. destruct (32 <? blen v) eqn:E; [lia|done].
    + by apply Put_short.
    + intros err mt'. rewrite Put_short by done. intros H.
      apply Put_insert_trace in H as (t & E & F).
      exists (Get_call k :: t). split; [done|]. constructor; [by intros []|].
      eapply Forall_impl; [exact F|]. intros c. destruct c; simpl; tauto.
  - assert (Hu : userValue Sha256 v = Sha256 v).
    { unfold userValue. destruct (32 <? blen v) eqn:E; [done|lia]. }
    split; [exact Hu|]. split; [by intros Hsize; rewrite Hu|]. split.
    + rewrite Put_long by done. by destruct (storeAnswer _ _).
    + intros err mt'. rewrite Put_long by done.
      destruct (storeAnswer _ _) as [e|].
      * intros [= <- <-]. by exists [].
      * intros H. apply Put_insert_trace in H as (t & E & F).
        exists (Get_call k :: t). split.
        -- rewrite E. simpl. by rewrite <- app_assoc.
        -- constructor; [by intros []|].
           eapply Forall_impl; [exact F|]. intros c. destruct c; simpl; tauto.
Qed.

(** C10: for a value of more than 32 bytes under a non-empty key, the
    first call [Put] makes is the write of [v] to the value store; the
    tree is consulted through [Get] after it, and only when the store
    accepted the value.  So a [Put] of the value that is already stored
    under [k] returns [nil] and leaves the tree as it was, but has
    written [v] to the value store. *)
Theorem Put_long_value_written_before_Get (k v : bytes) (mt : merkleTreeImp) :
  k <> [] -> 32 < blen v ->
  (forall err mt', Put Sha256 getNodeHash storeAnswer Get k v mt = Some (err, mt') ->
     exists t, calls mt' = calls mt ++ persistUserValue_call v :: t /\
       match storeAnswer (calls mt) (persistUserValue_call v) with
       | Some e => t = [] /\ err = Some e
       | None => exists t', t = Get_call k :: t' /\ Forall node_store_call t'
       end) /\
  (storeAnswer (calls mt) (persistUserValue_call v) = None ->
   (Get (called (persistUserValue_call v) mt) k).1.1 = v ->
   Put Sha256 getNodeHash storeAnswer Get k v mt =
     Some (None, mkTree (objs mt) (root mt)
                        (calls mt ++ [persistUserValue_call v; Get_call k]))).
Proof.
  intros Hk Hlen. rewrite Put_long by done. split.
  - intros err mt'. destruct (storeAnswer _ _) as [e|].
    + intros [= <- <-]. by exists [].
    + intros H. apply Put_insert_trace in H as (t & E & F).
      exists (Get_call k :: t). split; [|by eauto].
      rewrite E. simpl. by rewrite <- app_assoc.
  - intros -> HG. rewrite Put_insert_stored; [|intros ->; unfold blen in Hlen; simpl in Hlen; lia|done].
    unfold called. simpl. by rewrite <- app_assoc.
Qed.

(** C8: when the top of the stack is a Leaf whose stored path is the
    suffix of [k] left by the nodes under it and [pos] is the length of
    [k], [upsert] removes the leaf from the store with its old content,
    overwrites its value with [v], pushes it back and runs [update] on the
    stack; it returns [nil] with the stack it was given, creates no node
    object, and after the removal only persists nodes. *)
Theorem upsert_exact_leaf_match (pos : Z) (k : string) (v : bytes) (r : ref)
        (s : stack) (mt : merkleTreeImp) (p : string) (old : bytes)
        (nodes : list nodeContainer) :
  objs mt !! r = Some (LeafContainer (mkShort p old)) ->
  resolves mt s nodes ->
  str_from k (total counted nodes) = Some p ->
  pos = slen k ->
  let mt1 := mkTree (<[r := LeafContainer (mkShort p v)]> (objs mt)) (root mt)
               (calls mt ++ [removeNodeFromStore_call (LeafContainer (mkShort p old))]) in
  upsert getNodeHash storeAnswer pos k v (r :: s) mt =
    (let* _ := update getNodeHash storeAnswer k (r :: s) in ret (None, r :: s)) mt1 /\
  exists e mt',
    update getNodeHash storeAnswer k (r :: s) mt1 = Some (e, mt') /\
    upsert getNodeHash storeAnswer pos k v (r :: s) mt = Some ((None, r :: s), mt') /\
    length (objs mt') = length (objs mt) /\
    exists t,
      calls mt' =
        calls mt ++ removeNodeFromStore_call (LeafContainer (mkShort p old)) :: t /\
      Forall persist_call t.
Proof.
  intros Hr Hs Hp Hpos mt1.
  assert (Hup : upsert getNodeHash storeAnswer pos k v (r :: s) mt =
    (let* _ := update getNodeHash storeAnswer k (r :: s) in ret (None, r :: s)) mt1).
  { unfold upsert. change (stack_len (r :: s) =? 0) with false. cbv iota.
    rewrite (bind_run _ _ mt (r, s) mt eq_refl).
    rewrite (bind_run _ _ _ _ _ (is_leaf_run _ _ _ Hr)). cbn [isLeaf].
    rewrite bind_assoc.
    assert (Hl : getPathLength s mt = Some (total counted nodes, mt)).
    { unfold getPathLength, toSlice.
      by rewrite (getPathLength_loop_counted mt s nodes 0 Hs). }
    rewrite (bind_run _ _ _ _ _ Hl). rewrite bind_assoc.
    rewrite (bind_run _ _ _ _ _ (getPath_run _ _ _ _ Hr eq_refl)). cbn [sn_path].
    rewrite bind_assoc. rewrite Hp. rewrite (bind_run _ _ mt p mt eq_refl).
    cbv zeta. rewrite commonPrefix_diag, Z.eqb_refl. subst pos. rewrite Z.eqb_refl.
    rewrite (bind_run _ _ mt true mt eq_refl). cbv iota.
    rewrite (bind_run _ _ _ _ _ (removeNodeFromStore_run _ _ _ _ Hr)).
    rewrite (bind_run _ _ (called _ mt) tt mt1
               (setExtChild_run (called _ mt) r v _ Hr)).
    reflexivity. }
  split; [exact Hup|].
  destruct (update_returns getNodeHash storeAnswer k (r :: s) mt1) as (e & mt' & Hu).
  { simpl. rewrite length_insert. constructor.
    - by eapply lookup_lt_Some.
    - clear -Hs. induction Hs; constructor; [by eapply lookup_lt_Some|done]. }
  exists e, mt'. split; [done|]. split; [|split].
  - rewrite Hup. by rewrite (bind_run _ _ _ _ _ Hu).
  - apply update_same_size in Hu. unfold same_size in Hu. rewrite Hu. simpl.
    by rewrite length_insert.
  - apply update_appends_persists in Hu as (t & E & F).
    exists t. split; [|done]. rewrite E. simpl. by rewrite <- app_assoc.
Qed.

End Claims.

(** C2, as the specification words it, fails on a stack that holds a
    Leaf: the Leaf "6131" counts for nothing in [getPathLength], not for
    the four nibbles of its path. *)
Lemma getPathLength_excludes_leaves :
  resolves leaf_tree [0%nat] [leaf_a1] /\
  total matched_spec [leaf_a1] = 4 /\
  getPathLength [0%nat] leaf_tree = Some (0, leaf_tree) /\
  getPathLength [0%nat] leaf_tree <> Some (total matched_spec [leaf_a1], leaf_tree).
Proof.
  split; [|split; [|split]].
  - repeat constructor.
  - reflexivity.
  - reflexivity.
  - discriminate.
Qed.

(** * The claims on examples *)

(** C1 fails on the code: a [Put] followed by the same [Put] does not leave
    the root hash of a single one.  On the tree that holds "hello" under
    the key "a1", [Put] of "world" under "a1" returns [nil] and stores
    "world" nowhere: the traversal still finds "hello" and the Branch it
    has made carries "hello".  The same [Put] once more returns [nil], puts
    "world" in the Branch, and the root hash is another one. *)
Theorem Put_twice_changes_root_hash_of_Put_once :
  traversing_Put key_a1 hello empty_tree = Some (None, tree_hello) /\
  objs tree_hello = [LeafContainer (mkShort "6131" hello)] /\
  root tree_hello = Some 0%nat /\
  traversing_Put key_a1 world tree_hello = Some (None, tree_world_once) /\
  objs tree_world_once !! 2%nat = Some (BranchContainer (mkBranch ∅ hello)) /\
  (spec_Get tagged_getNodeHash tree_world_once key_a1).1.1 = hello /\
  (let* _ := traversing_Put key_a1 world in traversing_Put key_a1 world) tree_hello
    = Some (None, tree_world_twice) /\
  objs tree_world_twice !! 2%nat = Some (BranchContainer (mkBranch ∅ world)) /\
  (spec_Get tagged_getNodeHash tree_world_twice key_a1).1.1 = world /\
  rootHash tagged_getNodeHash tree_world_twice
    <> rootHash tagged_getNodeHash tree_world_once.
Proof.
  repeat split; try (vm_compute; reflexivity).
  vm_compute. discriminate.
Qed.

(** C3 fails on the code: whatever the node store answers when the new
    leaf is persisted, an error included, [Put] of "hello" under "a1" into
    the empty tree returns [nil] and installs the leaf as the root.  That
    is so for every short value put under a key for which the traversal
    returns the empty stack. *)
Theorem Put_discards_node_store_errors :
  node_store_down [Get_call key_a1] (persistNode_call leaf_a1) = Some (StoreFailure 1) /\
  (forall Sha256 getNodeHash storeAnswer,
     Put Sha256 getNodeHash storeAnswer example_Get key_a1 hello empty_tree =
     Some (None, mkTree [leaf_a1] (Some 0%nat)
                        [Get_call key_a1; persistNode_call leaf_a1])) /\
  (forall Sha256 getNodeHash storeAnswer Get k v mt,
     k <> [] -> v <> [] -> blen v <= 32 ->
     Get mt k = ([], [], None) ->
     Put Sha256 getNodeHash storeAnswer Get k v mt =
     Some (None,
           mkTree (objs mt ++ [LeafContainer (mkShort (hex_EncodeToString k) v)])
                  (Some (length (objs mt)))
                  (calls mt ++ [Get_call k;
                                persistNode_call
                                  (LeafContainer (mkShort (hex_EncodeToString k) v))]))).
Proof.
  split; [reflexivity|]. split.
  - intros Sha256 getNodeHash storeAnswer. reflexivity.
  - intros Sha256 getNodeHash storeAnswer Get k v mt Hk Hv Hlen HG.
    rewrite Put_short by done.
    rewrite (Put_insert_not_stored _ _ _ _ _ _ _ _ _ _ HG eq_refl).
    rewrite (bind_run _ _ _ 0 (called (Get_call k) mt) eq_refl).
    rewrite (bind_run _ _ _ _ _ (upsert_on_empty_stack _ _ _ _ _ _)).
    unfold Put_finish, bind, must, set_root, ret. simpl.
    by rewrite <- app_assoc.
Qed.

(** C4 fails on the code: on a stack of four Branch nodes and the key
    "ab", [update] stops at the fourth node with the error "invalid pos
    value", but the [upsert] that called it returns [nil], and so does
    [Put], which makes the node [update] never reached the root.  That is
    so for every stack with a Branch on top: whatever [update] returns,
    [upsert] returns [nil]. *)
Theorem upsert_discards_update_error :
  forall Sha256 getNodeHash storeAnswer,
    (let branch3 := BranchContainer (mkBranch ∅ hello) in
     let branch2 := with_child "b" (fst (getNodeHash branch3)) empty_branch in
     let branch1 := with_child "a" (fst (getNodeHash branch2)) empty_branch in
     let mt1 := mkTree [empty_branch; empty_branch; empty_branch; branch3]
                       (Some 0%nat) [removeNodeFromStore_call branch3] in
     let mt' := mkTree [empty_branch; branch1; branch2; branch3] (Some 0%nat)
                       [removeNodeFromStore_call branch3; persistNode_call branch3;
                        persistNode_call branch2; persistNode_call branch1] in
     update getNodeHash storeAnswer "ab" deep_stack mt1 =
       Some (Some (errors_New "invalid pos value"), mt') /\
     upsert getNodeHash storeAnswer 4 "ab" hello deep_stack deep_tree =
       Some ((None, deep_stack), mt') /\
     Put Sha256 getNodeHash storeAnswer Get_deep key_ab hello deep_tree =
       Some (None, mkTree (objs mt') (Some 0%nat) (Get_call key_ab :: calls mt'))) /\
    (forall pos k v r s b mt res mt',
       objs mt !! r = Some (BranchContainer b) ->
       upsert getNodeHash storeAnswer pos k v (r :: s) mt = Some (res, mt') ->
       res.1 = None).
Proof.
  intros Sha256 getNodeHash storeAnswer. split.
  - intros branch3 branch2 branch1 mt1 mt'.
    split; [reflexivity|]. split; reflexivity.
  - intros pos k v r s b mt res mt' Hr.
    unfold upsert. change (stack_len (r :: s) =? 0) with false. cbv iota.
    rewrite (bind_run _ _ mt (r, s) mt eq_refl).
    rewrite (bind_run _ _ _ _ _ (is_leaf_run _ _ _ Hr)). cbn [isLeaf].
    rewrite (bind_run _ _ mt false mt eq_refl). cbv iota.
    rewrite (bind_run _ _ _ _ _ (is_branch_run _ _ _ Hr)). cbn [isBranch]. cbv zeta.
    destruct (pos <? slen k).
    + unfold bind at 1. destruct (must (str_from k (pos + 1)) mt) as [[rest mt1]|]; [|done].
      unfold newLeafNodeContainer. rewrite bind_assoc.
      unfold bind at 1. destruct (alloc _ mt1) as [[n mt2]|]; [|done].
      unfold bind at 1. unfold ret at 1. cbv beta iota.
      unfold bind at 1. destruct (update _ _ _ _ mt2) as [[e mt3]|]; [|done].
      by intros [= <- _].
    + unfold bind at 1. destruct (setValue r v mt) as [[u mt1]|]; [|done].
      unfold bind at 1. destruct (removeNodeFromStore _ r mt1) as [[e1 mt2]|]; [|done].
      unfold bind at 1. destruct (update _ _ _ _ mt2) as [[e mt3]|]; [|done].
      by intros [= <- _].
Qed.

(** C5 fails on the code: when a Branch on top of the stack gets a new
    child, here for the key "ab" with one nibble matched, the Branch is
    changed and persisted again, and no node is removed from the store.
    That is so for every Branch on top of a stack and every key with
    nibbles left: [upsert] then only persists nodes. *)
Theorem upsert_adds_branch_child_without_removal :
  forall getNodeHash storeAnswer,
    (let branch' := with_child "b" (fst (getNodeHash empty_path_leaf)) branch_c in
     upsert getNodeHash storeAnswer 1 "ab" hello [0%nat] branch_tree =
       Some ((None, [1%nat; 0%nat]),
             mkTree [branch'; empty_path_leaf] (Some 0%nat)
                    [persistNode_call empty_path_leaf; persistNode_call branch']) /\
     branch' <> branch_c /\
     existsb is_removeNodeFromStore
             [persistNode_call empty_path_leaf; persistNode_call branch'] = false) /\
    (forall pos k v r s b mt res mt',
       objs mt !! r = Some (BranchContainer b) ->
       pos < slen k ->
       upsert getNodeHash storeAnswer pos k v (r :: s) mt = Some (res, mt') ->
       appends persist_call mt mt').
Proof.
  intros getNodeHash storeAnswer. split.
  - intros branch'. split; [reflexivity|]. split; [|reflexivity].
    intros H.
    apply (f_equal (fun c => match c with
                             | BranchContainer b => bn_children b !! "b"
                             | _ => None
                             end)) in H.
    unfold branch', branch_c in H. simpl in H.
    rewrite lookup_insert_eq in H.
    do 2 (rewrite lookup_insert_ne in H by done). rewrite lookup_empty in H. done.
  - intros pos k v r s b mt res mt' Hr Hpos.
    unfold upsert. change (stack_len (r :: s) =? 0) with false. cbv iota.
    rewrite (bind_run _ _ mt (r, s) mt eq_refl).
    rewrite (bind_run _ _ _ _ _ (is_leaf_run _ _ _ Hr)). cbn [isLeaf].
    rewrite (bind_run _ _ mt false mt eq_refl). cbv iota.
    rewrite (bind_run _ _ _ _ _ (is_branch_run _ _ _ Hr)). cbn [isBranch]. cbv zeta.
    destruct (pos <? slen k) eqn:E; [|lia].
    clear Hr. revert mt res mt'.
    change (relates (appends persist_call)
              (let* rest := must (str_from k (pos + 1)) in
               let* '(newLeaf, err) := newLeafNodeContainer rest v in
               match err with
               | Some e => ret (Some e, push r s)
               | None =>
                   let* _ := update getNodeHash storeAnswer k (push newLeaf (push r s)) in
                   ret (None, push newLeaf (push r s))
               end)).
    apply relates_bind; [apply _|apply relates_must; apply _|]. intros rest.
    apply relates_bind; [apply _| |].
    + unfold newLeafNodeContainer.
      apply relates_bind; [apply _| |intros n; apply relates_ret; apply _].
      intros mt a mt' H. injection H as _ <-. apply appends_alloc.
    + intros [newLeaf [e|]]; [apply relates_ret; apply _|].
      apply relates_bind; [apply _|apply update_appends_persists|].
      intros _. apply relates_ret; apply _.
Qed.

(** * The hypotheses of the claims hold on the examples *)

(** X19 on the empty tree: after a first [Put] of the 40-byte value under
    "a1" the traversal finds the value stored, and the second [Put] leaves
    the root hash of the first. *)
Lemma Put_stored_value_is_noop_witness :
  key_a1 <> [] /\ long_value <> [] /\
  (example_Get (at_Get long_value (tree_after_Put key_a1 long_value)) key_a1).1.1
    = long_value /\
  exists err mt',
    (let* _ := Put example_Sha256 example_getNodeHash store_accepts example_Get
                   key_a1 long_value in
     Put example_Sha256 example_getNodeHash store_accepts example_Get
         key_a1 long_value) empty_tree = Some (err, mt') /\
    rootHash example_getNodeHash mt' =
      rootHash example_getNodeHash (tree_after_Put key_a1 long_value).
Proof.
  assert (Hk : key_a1 <> []) by discriminate.
  assert (Hv : long_value <> []) by discriminate.
  assert (HG : (example_Get (at_Get long_value (tree_after_Put key_a1 long_value))
                            key_a1).1.1 = long_value) by (vm_compute; reflexivity).
  split; [exact Hk|]. split; [exact Hv|]. split; [exact HG|].
  apply (proj2 (Put_stored_value_is_noop example_Sha256 example_getNodeHash
                  store_accepts example_Get key_a1 long_value
                  (tree_after_Put key_a1 long_value) Hk Hv HG) empty_tree None).
  vm_compute. reflexivity.
Defined.

(** C2 on the tree that is the Leaf "6131": [Put] of another value under
    "a1" passes [pos = 0] to [upsert]. *)
Lemma Put_pos_counts_branches_and_extensions_witness :
  example_Get leaf_tree key_a1 = (hello, [0%nat], None) /\
  negb (blen hello =? 0) && bytes_Equal hello [x01] = false /\
  resolves leaf_tree [0%nat] [leaf_a1] /\
  getPathLength [0%nat] leaf_tree = Some (total counted [leaf_a1], leaf_tree) /\
  Put_insert example_getNodeHash store_accepts example_Get key_a1 [x01] [x01] leaf_tree =
  (let* '(err, stack) :=
     upsert example_getNodeHash store_accepts (total counted [leaf_a1])
            (hex_EncodeToString key_a1) [x01] [0%nat] in
   Put_finish err stack) (called (Get_call key_a1) leaf_tree).
Proof.
  assert (HG : example_Get leaf_tree key_a1 = (hello, [0%nat], None)) by reflexivity.
  assert (Hne : negb (blen hello =? 0) && bytes_Equal hello [x01] = false) by reflexivity.
  assert (Hres : resolves leaf_tree [0%nat] [leaf_a1]) by (repeat constructor).
  split; [exact HG|]. split; [exact Hne|]. split; [exact Hres|].
  exact (Put_pos_counts_branches_and_extensions example_getNodeHash store_accepts
           example_Get key_a1 [x01] [x01] leaf_tree hello [0%nat] None [leaf_a1]
           HG Hne Hres).
Defined.

(** C6 on an empty key. *)
Lemma Put_rejects_empty_witness :
  ([] = @nil byte \/ hello = []) /\
  Put example_Sha256 example_getNodeHash store_accepts example_Get [] hello empty_tree =
  Some (Some InvalidUserDataError, empty_tree).
Proof.
  split; [by left|].
  apply (Put_rejects_empty example_Sha256 example_getNodeHash store_accepts example_Get).
  by left.
Defined.

(** C7 on the 40-byte value put under "a1" into the empty tree: the user
    value is its hash. *)
Lemma Put_user_value_witness :
  key_a1 <> [] /\ long_value <> [] /\
  userValue example_Sha256 long_value = example_Sha256 long_value /\
  Put example_Sha256 example_getNodeHash store_accepts example_Get
      key_a1 long_value empty_tree =
  Put_insert example_getNodeHash store_accepts example_Get
      key_a1 long_value (example_Sha256 long_value)
      (called (persistUserValue_call long_value) empty_tree).
Proof.
  assert (Hk : key_a1 <> []) by discriminate.
  assert (Hv : long_value <> []) by discriminate.
  split; [exact Hk|]. split; [exact Hv|].
  destruct (Put_user_value example_Sha256 example_getNodeHash store_accepts
              example_Get key_a1 long_value empty_tree Hk Hv) as [_ Hlong].
  destruct Hlong as (Hu & _ & HP & _); [reflexivity|].
  split; [exact Hu|exact HP].
Defined.

(** C8 on the empty-path Leaf over four Branch nodes, for the key "6131"
    matched to its end. *)
Lemma upsert_exact_leaf_match_witness :
  objs deep_leaf_tree !! 4%nat = Some (LeafContainer (mkShort "" hello)) /\
  resolves deep_leaf_tree deep_stack
           [empty_branch; empty_branch; empty_branch; empty_branch] /\
  str_from "6131" (total counted [empty_branch; empty_branch; empty_branch; empty_branch])
    = Some "" /\
  4 = slen "6131" /\
  exists e mt',
    update example_getNodeHash store_accepts "6131" deep_leaf_stack
      (mkTree (<[4%nat := LeafContainer (mkShort "" [x01])]> (objs deep_leaf_tree))
              (root deep_leaf_tree)
              (calls deep_leaf_tree ++
               [removeNodeFromStore_call (LeafContainer (mkShort "" hello))]))
      = Some (e, mt') /\
    upsert example_getNodeHash store_accepts 4 "6131" [x01] deep_leaf_stack deep_leaf_tree
      = Some ((None, deep_leaf_stack), mt') /\
    length (objs mt') = length (objs deep_leaf_tree) /\
    exists t,
      calls mt' =
        calls deep_leaf_tree ++
        removeNodeFromStore_call (LeafContainer (mkShort "" hello)) :: t /\
      Forall persist_call t.
Proof.
  assert (H1 : objs deep_leaf_tree !! 4%nat = Some (LeafContainer (mkShort "" hello)))
    by reflexivity.
  assert (H2 : resolves deep_leaf_tree deep_stack
                 [empty_branch; empty_branch; empty_branch; empty_branch])
    by (repeat constructor).
  assert (H3 : str_from "6131"
                 (total counted [empty_branch; empty_branch; empty_branch; empty_branch])
               = Some "") by reflexivity.
  assert (H4 : 4 = slen "6131") by reflexivity.
  split; [exact H1|]. split; [exact H2|]. split; [exact H3|]. split; [exact H4|].
  exact (proj2 (upsert_exact_leaf_match example_getNodeHash store_accepts
                  4 "6131" [x01] 4%nat deep_stack deep_leaf_tree "" hello
                  [empty_branch; empty_branch; empty_branch; empty_branch]
                  H1 H2 H3 H4)).
Defined.

(** C10 on the tree a first [Put] of the 40-byte value under "a1" left:
    the second [Put] changes nothing in the tree and has written the
    value to the value store again. *)
Lemma Put_long_value_written_before_Get_witness :
  key_a1 <> [] /\ 32 < blen long_value /\
  Put example_Sha256 example_getNodeHash store_accepts example_Get
      key_a1 long_value (tree_after_Put key_a1 long_value) =
  Some (None,
        mkTree (objs (tree_after_Put key_a1 long_value))
               (root (tree_after_Put key_a1 long_value))
               (calls (tree_after_Put key_a1 long_value) ++
                [persistUserValue_call long_value; Get_call key_a1])).
Proof.
  assert (Hk : key_a1 <> []) by discriminate.
  assert (Hlen : 32 < blen long_value) by reflexivity.
  split; [exact Hk|]. split; [exact Hlen|].
  apply (proj2 (Put_long_value_written_before_Get example_Sha256 example_getNodeHash
                  store_accepts example_Get key_a1 long_value
                  (tree_after_Put key_a1 long_value) Hk Hlen)).
  - reflexivity.
  - vm_compute. reflexivity.
Defined.

(** * Further properties of the code *)

(** ** The nibble path of a key *)

Lemma hexdigit_inj (m n : N) :
  (m < 16)%N -> (n < 16)%N -> hexdigit m = hexdigit n -> m = n.
Proof.
  intros Hm Hn.
  destruct m as [|p]; [|do 5 (try destruct p as [p|p|]); try lia];
  (destruct n as [|q]; [|do 5 (try destruct q as [q|q|]); try lia]);
  vm_compute; intros H; first [reflexivity | discriminate H].
Qed.

Lemma byte_nibbles_inj (a b : byte) :
  N.shiftr (Byte.to_N a) 4 = N.shiftr (Byte.to_N b) 4 ->
  N.land (Byte.to_N a) 15 = N.land (Byte.to_N b) 15 ->
  a = b.
Proof.
  intros Hhi Hlo.
  assert (Hab : Byte.to_N a = Byte.to_N b).
  { rewrite !N.shiftr_div_pow2 in Hhi.
    change 15%N with (N.ones 4) in Hlo. rewrite !N.land_ones in Hlo.
    rewrite (N.div_mod (Byte.to_N a) (2 ^ 4)) by done.
    rewrite (N.div_mod (Byte.to_N b) (2 ^ 4)) by done.
    by rewrite Hhi, Hlo. }
  apply (f_equal Byte.of_N) in Hab. rewrite !Byte.of_to_N in Hab. by injection Hab.
Qed.

Lemma byte_nibbles_bounded (a : byte) :
  (N.shiftr (Byte.to_N a) 4 < 16)%N /\ (N.land (Byte.to_N a) 15 < 16)%N.
Proof.
  pose proof (Byte.to_N_bounded a) as Ha. split.
  - rewrite N.shiftr_div_pow2. apply N.Div0.div_lt_upper_bound. simpl. lia.
  - change 15%N with (N.ones 4). rewrite N.land_ones. by apply N.mod_lt.
Qed.

(** X1: the nibble path [Put] derives from a key has two hex characters
    per byte of the key: it is of even length, and empty only for the
    empty key. *)
Theorem hex_EncodeToString_length (k : bytes) :
  slen (hex_EncodeToString k) = 2 * blen k.
Proof.
  unfold slen, blen. induction k as [|b k IH]; simpl; [done|]. lia.
Qed.

(** X2: two different keys never have the same nibble path. *)
Theorem hex_EncodeToString_inj (k1 k2 : bytes) :
  hex_EncodeToString k1 = hex_EncodeToString k2 -> k1 = k2.
Proof.
  revert k2. induction k1 as [|a k1 IH]; intros [|b k2]; simpl; try done.
  intros [= Hhi Hlo Hrest].
  destruct (byte_nibbles_bounded a) as [Ha1 Ha2].
  destruct (byte_nibbles_bounded b) as [Hb1 Hb2].
  apply hexdigit_inj in Hhi; [|done|done]. apply hexdigit_inj in Hlo; [|done|done].
  f_equal; [by apply byte_nibbles_inj|by apply IH].
Qed.

(** ** One turn of the loop of [update] *)

Section UpdateLoop.

Context (getNodeHash : nodeContainer -> bytes * error)
        (storeAnswer : list call -> call -> error).

Lemma persistNode_run mt n c :
  objs mt !! n = Some c ->
  persistNode storeAnswer n mt =
  Some (storeAnswer (calls mt) (persistNode_call c), called (persistNode_call c) mt).
Proof.
  intros Hn. unfold persistNode.
  by rewrite (bind_run _ _ _ _ _ (deref_run _ _ _ Hn)).
Qed.

Lemma update_loop_step k n rest lastRoot pos mt c :
  objs mt !! n = Some c ->
  (forall lr, lastRoot = Some lr -> is_Some (objs mt !! lr)) ->
  update_loop getNodeHash storeAnswer k (n :: rest) lastRoot pos mt =
  match relink getNodeHash k c (content_of mt lastRoot) pos with
  | None => None
  | Some (inl e) => Some (Some e, mt)
  | Some (inr (c', pos')) =>
      update_loop getNodeHash storeAnswer k rest (Some n) pos'
        (mkTree (<[n := c']> (objs mt)) (root mt) (calls mt ++ [persistNode_call c']))
  end.
Proof.
  intros Hc Hlr.
  assert (Hn : (n < length (objs mt))%nat) by by eapply lookup_lt_Some.
  assert (Hsame : forall p,
    (let* _ := persistNode storeAnswer n in
     update_loop getNodeHash storeAnswer k rest (Some n) p) mt =
    update_loop getNodeHash storeAnswer k rest (Some n) p
      (mkTree (<[n := c]> (objs mt)) (root mt) (calls mt ++ [persistNode_call c]))).
  { intros p. rewrite (bind_run _ _ _ _ _ (persistNode_run _ _ _ Hc)).
    unfold called. by rewrite list_insert_id. }
  assert (Hnew : forall p c',
    (let* _ := persistNode storeAnswer n in
     update_loop getNodeHash storeAnswer k rest (Some n) p)
      (mkTree (<[n := c']> (objs mt)) (root mt) (calls mt)) =
    update_loop getNodeHash storeAnswer k rest (Some n) p
      (mkTree (<[n := c']> (objs mt)) (root mt) (calls mt ++ [persistNode_call c']))).
  { intros p c'.
    assert (Hc' : objs (mkTree (<[n := c']> (objs mt)) (root mt) (calls mt)) !! n
                  = Some c') by by apply list_lookup_insert_eq.
    by rewrite (bind_run _ _ _ _ _ (persistNode_run _ n c' Hc')). }
  simpl. rewrite (bind_run _ _ _ _ _ (deref_run _ _ _ Hc)).
  destruct c as [b|e|l]; simpl.
  - destruct lastRoot as [lr|]; simpl; [|apply Hsame].
    destruct (Hlr lr eq_refl) as [lc Hlc]. rewrite Hlc.
    destruct ((pos <? 0) || (pos =? slen k)); [done|].
    destruct (str_index k pos) as [ch|]; [|done].
    rewrite (bind_run _ _ mt ch mt eq_refl).
    rewrite (bind_run _ _ _ _ _ (addBranchChild_run _ _ _ _ _ _ _ Hc Hlc)).
    apply Hnew.
  - rewrite (bind_run _ _ _ _ _ (getPath_run _ _ _ e Hc eq_refl)).
    destruct lastRoot as [lr|]; simpl; [|apply Hsame].
    destruct (Hlr lr eq_refl) as [lc Hlc]. rewrite Hlc.
    rewrite (bind_run _ _ _ _ _ (deref_run _ _ _ Hlc)).
    destruct (getNodeHash lc) as [hash [err|]]; [done|].
    rewrite (bind_run _ _ _ _ _ (setExtChild_run _ _ _ _ Hc)).
    apply Hnew.
  - rewrite (bind_run _ _ _ _ _ (getPath_run _ _ _ l Hc eq_refl)).
    apply Hsame.
Qed.

Lemma update_loop_cons_Some k n rest lastRoot pos mt r :
  update_loop getNodeHash storeAnswer k (n :: rest) lastRoot pos mt = Some r ->
  is_Some (objs mt !! n).
Proof.
  simpl. unfold bind at 1. unfold deref at 1.
  by destruct (objs mt !! n).
Qed.

End UpdateLoop.

(** ** What [update] changes, persists and returns *)

#[local] Instance same_root_preorder : PreOrder same_root.
Proof.
  split.
  - by intros mt.
  - intros mt1 mt2 mt3 H1 H2. unfold same_root in *. congruence.
Qed.

Section UpdateProperties.

Context (getNodeHash : nodeContainer -> bytes * error)
        (storeAnswer : list call -> call -> error).

Lemma relink_linked k c lc pos c' pos' :
  relink getNodeHash k c (Some lc) pos = Some (inr (c', pos')) ->
  linked getNodeHash lc c'.
Proof.
  destruct c as [b|e|l]; simpl.
  - destruct ((pos <? 0) || (pos =? slen k)); [done|].
    destruct (str_index k pos) as [ch|]; [|done].
    intros [= <- _]. simpl. eexists. apply lookup_insert_eq.
  - destruct (getNodeHash lc) as [hash [err|]] eqn:E; [done|].
    intros [= <- _]. simpl. by rewrite E.
  - by intros [= <- _].
Qed.

Lemma relink_error k c last pos e :
  relink getNodeHash k c last pos = Some (inl e) ->
  e = errors_New "invalid pos value" \/ exists lc h, getNodeHash lc = (h, Some e).
Proof.
  destruct c as [b|s|l]; simpl; destruct last as [lc|]; try done.
  - destruct ((pos <? 0) || (pos =? slen k)); [intros [= <-]; by left|].
    by destruct (str_index k pos).
  - destruct (getNodeHash lc) as [hash [err|]] eqn:E; [|done].
    intros [= <-]. right. by eexists _, _.
Qed.

Lemma relink_top k c pos :
  exists pos', relink getNodeHash k c None pos = Some (inr (c, pos')).
Proof. destruct c; simpl; by eexists. Qed.

Lemma update_loop_frame k items lastRoot pos mt e mt' :
  update_loop getNodeHash storeAnswer k items lastRoot pos mt = Some (e, mt') ->
  (forall lr, lastRoot = Some lr -> is_Some (objs mt !! lr)) ->
  forall r, r ∉ items -> objs mt' !! r = objs mt !! r.
Proof.
  revert lastRoot pos mt. induction items as [|n rest IH]; intros lastRoot pos mt H Hlr r Hr.
  - by injection H as _ <-.
  - destruct (update_loop_cons_Some _ _ _ _ _ _ _ _ _ H) as [c Hc].
    rewrite (update_loop_step _ _ _ _ _ _ _ _ c Hc Hlr) in H.
    apply not_elem_of_cons in Hr as [Hrn Hr].
    destruct (relink _ _ _ _ _) as [[e0|[c' pos']]|]; [| |done].
    + by injection H as _ <-.
    + apply IH with (r := r) in H; [|intros lr [= <-]; simpl|done].
      * rewrite H. simpl. by apply list_lookup_insert_ne.
      * apply lookup_lt_is_Some. rewrite length_insert. by eapply lookup_lt_Some.
Qed.

Lemma update_loop_final k items lastRoot pos mt mt' :
  update_loop getNodeHash storeAnswer k items lastRoot pos mt = Some (None, mt') ->
  (forall lr, lastRoot = Some lr -> is_Some (objs mt !! lr)) ->
  NoDup items ->
  exists nodes,
    resolves mt' items nodes /\
    calls mt' = calls mt ++ (persistNode_call <$> nodes) /\
    chained getNodeHash (option_list (content_of mt lastRoot) ++ nodes).
Proof.
  revert lastRoot pos mt. induction items as [|n rest IH]; intros lastRoot pos mt H Hlr Hnd.
  - injection H as <-. exists []. split; [constructor|]. split; [by rewrite app_nil_r|].
    rewrite app_nil_r. destruct (content_of mt lastRoot); simpl; done.
  - destruct (update_loop_cons_Some _ _ _ _ _ _ _ _ _ H) as [c Hc].
    rewrite (update_loop_step _ _ _ _ _ _ _ _ c Hc Hlr) in H.
    apply NoDup_cons in Hnd as [Hn Hnd].
    destruct (relink _ _ _ _ _) as [[e0|[c' pos']]|] eqn:Erel; [done| |done].
    assert (Hlen : (n < length (objs mt))%nat) by by eapply lookup_lt_Some.
    assert (Hn1 : forall lr, Some n = Some lr ->
              is_Some (objs (mkTree (<[n := c']> (objs mt)) (root mt)
                                    (calls mt ++ [persistNode_call c'])) !! lr)).
    { intros lr [= <-]. simpl. apply lookup_lt_is_Some. by rewrite length_insert. }
    destruct (IH _ _ _ H Hn1 Hnd) as (nodes & Hres & Hcalls & Hch).
    pose proof (update_loop_frame _ _ _ _ _ _ _ H Hn1 n Hn) as Hfr.
    simpl in Hfr. rewrite list_lookup_insert_eq in Hfr by done.
    exists (c' :: nodes). split; [by constructor|]. split.
    + rewrite Hcalls. simpl. by rewrite <- app_assoc.
    + simpl in Hch. rewrite list_lookup_insert_eq in Hch by done. simpl in Hch.
      destruct lastRoot as [lr|]; simpl.
      * destruct (Hlr lr eq_refl) as [lc Hlc]. simpl in Erel. rewrite Hlc in *. simpl.
        split; [|exact Hch]. by eapply relink_linked.
      * exact Hch.
Qed.

Lemma update_loop_errors k items lastRoot pos mt e mt' :
  update_loop getNodeHash storeAnswer k items lastRoot pos mt = Some (Some e, mt') ->
  (forall lr, lastRoot = Some lr -> is_Some (objs mt !! lr)) ->
  e = errors_New "invalid pos value" \/ exists lc h, getNodeHash lc = (h, Some e).
Proof.
  revert lastRoot pos mt. induction items as [|n rest IH]; intros lastRoot pos mt H Hlr.
  - done.
  - destruct (update_loop_cons_Some _ _ _ _ _ _ _ _ _ H) as [c Hc].
    rewrite (update_loop_step _ _ _ _ _ _ _ _ c Hc Hlr) in H.
    destruct (relink _ _ _ _ _) as [[e0|[c' pos']]|] eqn:Erel; [| |done].
    + injection H as <- _. by eapply relink_error.
    + eapply IH; [exact H|]. intros lr [= <-]. simpl.
      apply lookup_lt_is_Some. rewrite length_insert. by eapply lookup_lt_Some.
Qed.

Lemma update_same_root k s :
  relates same_root (update getNodeHash storeAnswer k s).
Proof. by apply (relates_update same_root (fun _ => True)). Qed.

Lemma matched_spec_nonneg c : 0 <= matched_spec c.
Proof. destruct c; simpl; unfold slen; lia. Qed.

Lemma relink_succeeds k c last pos :
  (forall lc, snd (getNodeHash lc) = None) ->
  matched_spec c <= pos + 1 -> pos < slen k ->
  exists c' pos',
    relink getNodeHash k c last pos = Some (inr (c', pos')) /\
    matched_spec c' = matched_spec c /\
    pos - matched_spec c <= pos' <= pos.
Proof.
  intros Hh Hm Hpos. destruct c as [b|e|l]; simpl in *.
  - destruct last as [lc|]; [|eexists _, _; split; [done|]; split; [done|lia]].
    destruct (pos <? 0) eqn:E1; [lia|]. destruct (pos =? slen k) eqn:E2; [lia|]. simpl.
    destruct (str_index_in_range k pos) as [ch ->]; [lia|].
    eexists _, _. split; [done|]. split; [done|lia].
  - pose proof (matched_spec_nonneg (ExtContainer e)) as H0. simpl in H0.
    destruct last as [lc|]; [|eexists _, _; split; [done|]; split; [done|lia]].
    specialize (Hh lc). destruct (getNodeHash lc) as [hash err]. simpl in Hh. subst err.
    eexists _, _. split; [done|]. split; [done|lia].
  - pose proof (matched_spec_nonneg (LeafContainer l)) as H0. simpl in H0.
    eexists _, _. split; [done|]. split; [done|lia].
Qed.

Lemma update_loop_succeeds k items :
  forall ms lastRoot pos mt,
  Forall2 (fun r m => exists c, objs mt !! r = Some c /\ matched_spec c = m) items ms ->
  (forall lr, lastRoot = Some lr -> is_Some (objs mt !! lr)) ->
  (forall lc, snd (getNodeHash lc) = None) ->
  foldr Z.add 0 ms <= pos + 1 -> pos < slen k ->
  exists mt', update_loop getNodeHash storeAnswer k items lastRoot pos mt = Some (None, mt').
Proof.
  induction items as [|n rest IH]; intros ms lastRoot pos mt Hms Hlr Hh Hsum Hpos.
  - by eexists.
  - apply Forall2_cons_inv_l in Hms as (m & ms' & (c & Hc & Hm) & Hms' & ->).
    simpl in Hsum.
    assert (Hnn : 0 <= foldr Z.add 0 ms').
    { clear -Hms'. induction Hms' as [|r m0 rest ms0 (c0 & _ & <-) _ IH0]; simpl; [done|].
      pose proof (matched_spec_nonneg c0). lia. }
    rewrite (update_loop_step _ _ _ _ _ _ _ _ c Hc Hlr).
    destruct (relink_succeeds k c (content_of mt lastRoot) pos Hh) as
      (c' & pos' & -> & Hm' & Hp'); [lia|done|].
    apply (IH ms'); [|intros lr [= <-]; simpl|done|lia|lia].
    + eapply Forall2_impl; [exact Hms'|]. intros r m0 (c0 & Hc0 & Hm0). simpl.
      destruct (decide (r = n)) as [->|Hne].
      * exists c'. rewrite list_lookup_insert_eq by by eapply lookup_lt_Some.
        split; [done|]. congruence.
      * exists c0. by rewrite list_lookup_insert_ne.
    + apply lookup_lt_is_Some. rewrite length_insert. by eapply lookup_lt_Some.
Qed.

(** X3: on a stack of node objects [update] never panics, whatever the
    key; it returns [nil], the error "invalid pos value", or an error of
    the hashing of a node, never an answer of the node store. *)
Theorem update_outcome (k : string) (s : stack) (mt : merkleTreeImp) :
  Forall (fun r => (r < length (objs mt))%nat) s ->
  exists e mt',
    update getNodeHash storeAnswer k s mt = Some (e, mt') /\
    (e = None \/ e = Some (errors_New "invalid pos value") \/
     exists lc h err, e = Some err /\ getNodeHash lc = (h, Some err)).
Proof.
  intros Hs. destruct (update_returns getNodeHash storeAnswer k s mt Hs) as (e & mt' & H).
  exists e, mt'. split; [done|]. destruct e as [err|]; [|by left]. right.
  unfold update in H. destruct (stack_len s =? 0); [done|].
  apply update_loop_errors in H as [->|(lc & h & Hh)]; [by left| |done].
  right. by exists lc, h, err.
Qed.

Lemma update_untouched (k : string) (s : stack) (mt mt' : merkleTreeImp) (e : error) :
  update getNodeHash storeAnswer k s mt = Some (e, mt') ->
  forall r, r ∉ tail s -> objs mt' !! r = objs mt !! r.
Proof.
  intros H r Hr. unfold update in H. destruct s as [|n rest]; [by injection H as _ <-|].
  change (stack_len (n :: rest) =? 0) with false in H. cbv iota in H. unfold toSlice in H.
  destruct (update_loop_cons_Some _ _ _ _ _ _ _ _ _ H) as [c Hc].
  rewrite (update_loop_step _ _ _ _ _ _ _ _ c Hc) in H by done.
  destruct (relink_top k c (slen k - 1)) as [pos' Htop]. simpl in H. rewrite Htop in H.
  rewrite list_insert_id in H by done.
  apply update_loop_frame with (r := r) in H; [done| |done].
  intros lr [= <-]. by eexists.
Qed.

(** X4: [update] changes neither the root pointer nor the number of node
    objects, only persists nodes, and leaves alone the top node of the
    stack and every node object that is not on the stack. *)
Theorem update_frame (k : string) (s : stack) (mt mt' : merkleTreeImp) (e : error) :
  update getNodeHash storeAnswer k s mt = Some (e, mt') ->
  root mt' = root mt /\
  length (objs mt') = length (objs mt) /\
  appends persist_call mt mt' /\
  forall r, r ∉ tail s -> objs mt' !! r = objs mt !! r.
Proof.
  intros H. split; [|split; [|split]].
  - by apply update_same_root in H.
  - by apply update_same_size in H.
  - by apply update_appends_persists in H.
  - by eapply update_untouched.
Qed.

(** X5: when [update] returns [nil] on a stack without repeated nodes,
    what it has handed to the node store is exactly the content every
    node of the stack has in the end, one call per node from the top of
    the stack down: children are persisted before their parents and no
    stale content is persisted. *)
Theorem update_persists_final_contents (k : string) (s : stack) (mt mt' : merkleTreeImp) :
  update getNodeHash storeAnswer k s mt = Some (None, mt') ->
  NoDup s ->
  exists nodes,
    resolves mt' s nodes /\
    calls mt' = calls mt ++ (persistNode_call <$> nodes).
Proof.
  intros H Hnd. unfold update in H. destruct (stack_len s =? 0) eqn:E.
  - injection H as <-. destruct s; [|done].
    exists []. split; [constructor|]. by rewrite app_nil_r.
  - apply update_loop_final in H as (nodes & Hres & Hcalls & _); [|done|done].
    by exists nodes.
Qed.

(** X6: when [update] returns [nil] on a stack without repeated nodes,
    every node of the stack under the top refers, in the end, to the hash
    of the final content of the node above it: an Extension as its child
    reference, a Branch under one of its nibbles. *)
Theorem update_chains_hashes (k : string) (s : stack) (mt mt' : merkleTreeImp) :
  update getNodeHash storeAnswer k s mt = Some (None, mt') ->
  NoDup s ->
  exists nodes, resolves mt' s nodes /\ chained getNodeHash nodes.
Proof.
  intros H Hnd. unfold update in H. destruct (stack_len s =? 0) eqn:E.
  - injection H as <-. destruct s; [|done]. exists []. split; [constructor|done].
  - apply update_loop_final in H as (nodes & Hres & _ & Hch); [|done|done].
    by exists nodes.
Qed.

(** X7: when the nodes of the stack match no more nibbles than the key
    has (a Branch one, an Extension or a Leaf its stored path) and the
    hashing of a node does not fail, [update] returns [nil]: the cursor
    never leaves the key. *)
Theorem update_succeeds (k : string) (s : stack) (mt : merkleTreeImp)
        (nodes : list nodeContainer) :
  resolves mt s nodes ->
  total matched_spec nodes <= slen k ->
  (forall lc, snd (getNodeHash lc) = None) ->
  exists mt', update getNodeHash storeAnswer k s mt = Some (None, mt').
Proof.
  intros Hres Hsum Hh. unfold update. destruct (stack_len s =? 0); [by eexists|].
  apply (update_loop_succeeds k s (matched_spec <$> nodes)); [|done|done| |lia].
  - clear -Hres. induction Hres as [|r c s nodes Hr _ IH]; simpl; constructor; [|done].
    by exists c.
  - clear -Hsum. assert (Heq : foldr Z.add 0 (matched_spec <$> nodes) = total matched_spec nodes).
    { clear Hsum. unfold total.
      induction nodes as [|c nodes IH]; simpl; [done|]. f_equal. apply IH. }
    lia.
Qed.

End UpdateProperties.

(** X3 on the empty-path Leaf over four Branch nodes. *)
Lemma update_outcome_witness :
  Forall (fun r => (r < length (objs deep_leaf_tree))%nat) deep_leaf_stack /\
  exists e mt',
    update example_getNodeHash store_accepts "6131" deep_leaf_stack deep_leaf_tree
      = Some (e, mt') /\
    (e = None \/ e = Some (errors_New "invalid pos value") \/
     exists lc h err, e = Some err /\ example_getNodeHash lc = (h, Some err)).
Proof.
  assert (H : Forall (fun r => (r < length (objs deep_leaf_tree))%nat) deep_leaf_stack).
  { repeat constructor. }
  split; [exact H|].
  exact (update_outcome example_getNodeHash store_accepts "6131" deep_leaf_stack
           deep_leaf_tree H).
Defined.

(** X4 on the same stack, for the key "6131". *)
Lemma update_frame_witness :
  update example_getNodeHash store_accepts "6131" deep_leaf_stack deep_leaf_tree
    = Some (None, tree_after_update) /\
  root tree_after_update = root deep_leaf_tree /\
  length (objs tree_after_update) = length (objs deep_leaf_tree) /\
  appends persist_call deep_leaf_tree tree_after_update /\
  forall r, r ∉ tail deep_leaf_stack ->
            objs tree_after_update !! r = objs deep_leaf_tree !! r.
Proof.
  assert (H : update example_getNodeHash store_accepts "6131" deep_leaf_stack deep_leaf_tree
              = Some (None, tree_after_update)) by (vm_compute; reflexivity).
  split; [exact H|].
  exact (update_frame example_getNodeHash store_accepts "6131" deep_leaf_stack
           deep_leaf_tree tree_after_update None H).
Defined.

(** X5 on the same stack. *)
Lemma update_persists_final_contents_witness :
  update example_getNodeHash store_accepts "6131" deep_leaf_stack deep_leaf_tree
    = Some (None, tree_after_update) /\
  NoDup deep_leaf_stack /\
  exists nodes,
    resolves tree_after_update deep_leaf_stack nodes /\
    calls tree_after_update = calls deep_leaf_tree ++ (persistNode_call <$> nodes).
Proof.
  assert (H : update example_getNodeHash store_accepts "6131" deep_leaf_stack deep_leaf_tree
              = Some (None, tree_after_update)) by (vm_compute; reflexivity).
  assert (Hnd : NoDup deep_leaf_stack) by (apply (bool_decide_unpack (NoDup (A := nat) _)); vm_compute; exact I).
  split; [exact H|]. split; [exact Hnd|].
  exact (update_persists_final_contents example_getNodeHash store_accepts "6131"
           deep_leaf_stack deep_leaf_tree tree_after_update H Hnd).
Defined.

(** X6 on the same stack. *)
Lemma update_chains_hashes_witness :
  update example_getNodeHash store_accepts "6131" deep_leaf_stack deep_leaf_tree
    = Some (None, tree_after_update) /\
  NoDup deep_leaf_stack /\
  exists nodes,
    resolves tree_after_update deep_leaf_stack nodes /\
    chained example_getNodeHash nodes.
Proof.
  assert (H : update example_getNodeHash store_accepts "6131" deep_leaf_stack deep_leaf_tree
              = Some (None, tree_after_update)) by (vm_compute; reflexivity).
  assert (Hnd : NoDup deep_leaf_stack) by (apply (bool_decide_unpack (NoDup (A := nat) _)); vm_compute; exact I).
  split; [exact H|]. split; [exact Hnd|].
  exact (update_chains_hashes example_getNodeHash store_accepts "6131"
           deep_leaf_stack deep_leaf_tree tree_after_update H Hnd).
Defined.

(** X7 on the same stack: its nodes match the four nibbles of "6131". *)
Lemma update_succeeds_witness :
  resolves deep_leaf_tree deep_leaf_stack
    [empty_path_leaf; empty_branch; empty_branch; empty_branch; empty_branch] /\
  total matched_spec
    [empty_path_leaf; empty_branch; empty_branch; empty_branch; empty_branch]
    <= slen "6131" /\
  (forall lc, snd (example_getNodeHash lc) = None) /\
  exists mt',
    update example_getNodeHash store_accepts "6131" deep_leaf_stack deep_leaf_tree
      = Some (None, mt').
Proof.
  assert (H1 : resolves deep_leaf_tree deep_leaf_stack
            [empty_path_leaf; empty_branch; empty_branch; empty_branch; empty_branch])
    by (repeat constructor).
  assert (H2 : total matched_spec
            [empty_path_leaf; empty_branch; empty_branch; empty_branch; empty_branch]
            <= slen "6131") by (vm_compute; discriminate).
  assert (H3 : forall lc, snd (example_getNodeHash lc) = None) by (by intros []).
  split; [exact H1|]. split; [exact H2|]. split; [exact H3|].
  exact (update_succeeds example_getNodeHash store_accepts "6131" deep_leaf_stack
           deep_leaf_tree _ H1 H2 H3).
Defined.

(** ** The stack and the root after [upsert] *)

Lemma bind_inv {A B} (m : M A) (f : A -> M B) mt b mt2 :
  bind m f mt = Some (b, mt2) ->
  exists a mt1, m mt = Some (a, mt1) /\ f a mt1 = Some (b, mt2).
Proof.
  unfold bind. destruct (m mt) as [[a mt1]|]; [|done]. intros H. by exists a, mt1.
Qed.

Lemma must_pop_inv (s : stack) mt r s0 mt1 :
  must (pop s) mt = Some ((r, s0), mt1) -> s = r :: s0.
Proof. destruct s as [|x s']; simpl; [done|]. by intros [= -> -> _]. Qed.

(** Takes apart the hypotheses [m mt = Some (res, mt')] along the
    binds, conditionals and matches of [m], down to their [ret]s. *)
Ltac invert_runs :=
  repeat match goal with
         | H : bind _ _ _ = Some _ |- _ =>
             let H1 := fresh "Hrun" in
             apply bind_inv in H; destruct H as (? & ? & H1 & H)
         | H : ret _ _ = Some _ |- _ => unfold ret in H; simplify_eq
         | H : (let (_, _) := ?x in _) _ = Some _ |- _ => destruct x
         | H : (match ?x with _ => _ end) _ = Some _ |- _ => destruct x
         | H : (if ?b then _ else _) _ = Some _ |- _ => destruct b
         end.

Lemma newLeafNodeContainer_no_error path v mt n e mt1 :
  newLeafNodeContainer path v mt = Some ((n, e), mt1) -> e = None.
Proof. unfold newLeafNodeContainer, bind, alloc, ret. by intros [= _ <- _]. Qed.

Lemma newExtNodeContainer_no_error path v mt n e mt1 :
  newExtNodeContainer path v mt = Some ((n, e), mt1) -> e = None.
Proof. unfold newExtNodeContainer, bind, alloc, ret. by intros [= _ <- _]. Qed.

Lemma newBranchNodeContainer_no_error mt n e mt1 :
  newBranchNodeContainer mt = Some ((n, e), mt1) -> e = None.
Proof. unfold newBranchNodeContainer, bind, alloc, ret. by intros [= _ <- _]. Qed.

(** Closes the goals in which a node constructor returned an error. *)
Ltac no_constructor_error :=
  match goal with
  | Hc : newLeafNodeContainer _ _ _ = Some ((_, Some _), _) |- _ =>
      by apply newLeafNodeContainer_no_error in Hc
  | Hc : newExtNodeContainer _ _ _ = Some ((_, Some _), _) |- _ =>
      by apply newExtNodeContainer_no_error in Hc
  | Hc : newBranchNodeContainer _ = Some ((_, Some _), _) |- _ =>
      by apply newBranchNodeContainer_no_error in Hc
  end.

#[local] Instance grows_preorder : PreOrder grows.
Proof.
  split.
  - intros mt. unfold grows. lia.
  - intros mt1 mt2 mt3 H1 H2. unfold grows in *. lia.
Qed.

Section UpsertShape.

Context (getNodeHash : nodeContainer -> bytes * error)
        (storeAnswer : list call -> call -> error).

Lemma upsert_same_root pos k v s :
  relates same_root (upsert getNodeHash storeAnswer pos k v s).
Proof. by apply (relates_upsert same_root (fun _ => True)). Qed.

Lemma upsert_grows pos k v s :
  relates grows (upsert getNodeHash storeAnswer pos k v s).
Proof.
  apply (relates_upsert grows (fun _ => True)).
  - intros mt n c. unfold grows. simpl. by rewrite length_insert.
  - intros mt c _. unfold grows. simpl. lia.
  - intros mt c. unfold grows. simpl. rewrite length_app. lia.
  - done.
Qed.

Lemma upsert_stack_shape (pos : Z) (k : string) (v : bytes) (s : stack)
      (mt mt' : merkleTreeImp) (e : error) (s' : stack) :
  upsert getNodeHash storeAnswer pos k v s mt = Some ((e, s'), mt') ->
  exists pre, s' = pre ++ tail s /\ pre <> [] /\ (length pre <= 3)%nat.
Proof.
  intros H.
  unfold upsert in H. destruct s as [|r0 s0].
  - change (stack_len [] =? 0) with true in H. cbv iota in H.
    invert_runs; try no_constructor_error.
    unfold push; eexists [_]; split; [reflexivity|split; [discriminate|simpl; lia]].
  - change (stack_len (r0 :: s0) =? 0) with false in H. cbv iota in H.
    apply bind_inv in H. destruct H as ([r s1] & mt1 & Hpop & H).
    apply must_pop_inv in Hpop. injection Hpop as <- <-. simpl tail.
    invert_runs; try no_constructor_error; unfold push;
      first [ eexists [_]; split; [reflexivity|split; [discriminate|simpl; lia]]
            | eexists [_; _]; split; [reflexivity|split; [discriminate|simpl; lia]]
            | eexists [_; _; _]; split; [reflexivity|split; [discriminate|simpl; lia]] ].
Qed.

(** X8: [upsert] only replaces the top of the stack: the stack it leaves
    is the given stack without its top, under one to three nodes.  It
    does not move the root pointer and drops no node object. *)
Theorem upsert_replaces_top (pos : Z) (k : string) (v : bytes) (s : stack)
        (mt mt' : merkleTreeImp) (e : error) (s' : stack) :
  upsert getNodeHash storeAnswer pos k v s mt = Some ((e, s'), mt') ->
  (exists pre, s' = pre ++ tail s /\ pre <> [] /\ (length pre <= 3)%nat) /\
  root mt' = root mt /\
  (length (objs mt) <= length (objs mt'))%nat.
Proof.
  intros H. split; [|split; [by apply upsert_same_root in H|by apply upsert_grows in H]].
  by eapply upsert_stack_shape.
Qed.

End UpsertShape.

(** ** The root after [Put] *)

Lemma slice_index_last (s : stack) : slice_index (toSlice s) (stack_len s - 1) = last s.
Proof.
  unfold slice_index, toSlice, stack_len. destruct s as [|r s]; [done|].
  destruct (Z.of_nat (length (r :: s)) - 1 <? 0) eqn:E.
  { apply Z.ltb_lt in E. simpl length in E. lia. }
  rewrite last_lookup. f_equal. simpl length. lia.
Qed.

Section PutRoot.

Context (Sha256 : bytes -> bytes)
        (getNodeHash : nodeContainer -> bytes * error)
        (storeAnswer : list call -> call -> error)
        (Get : merkleTreeImp -> bytes -> bytes * stack * error).

Lemma Put_finish_run err s mt res mt' :
  Put_finish err s mt = Some (res, mt') ->
  (exists e, err = Some e /\ res = Some e /\ mt' = mt) \/
  (exists r, err = None /\ res = None /\ last s = Some r /\
             mt' = mkTree (objs mt) (Some r) (calls mt)).
Proof.
  unfold Put_finish. destruct err as [e|].
  - intros [= <- <-]. left. by exists e.
  - cbv zeta. rewrite slice_index_last. unfold bind, must, set_root, ret.
    destruct (last s) as [r|]; [|done]. intros [= <- <-]. right. by exists r.
Qed.

Lemma Put_insert_run k v uv mt res mt' :
  Put_insert getNodeHash storeAnswer Get k v uv mt = Some (res, mt') ->
  (res = None /\ mt' = called (Get_call k) mt /\
   negb (blen (Get mt k).1.1 =? 0) && bytes_Equal (Get mt k).1.1 v = true) \/
  (negb (blen (Get mt k).1.1 =? 0) && bytes_Equal (Get mt k).1.1 v = false /\
   exists pos e s' mt1,
     getPathLength (Get mt k).1.2 (called (Get_call k) mt) =
       Some (pos, called (Get_call k) mt) /\
     upsert getNodeHash storeAnswer pos (hex_EncodeToString k) uv (Get mt k).1.2
            (called (Get_call k) mt) = Some ((e, s'), mt1) /\
     Put_finish e s' mt1 = Some (res, mt')).
Proof.
  unfold Put_insert, call_Get. unfold bind at 1.
  destruct (Get mt k) as [[res0 stack0] err0]. simpl.
  destruct (negb (blen res0 =? 0) && bytes_Equal res0 v).
  - intros [= <- <-]. by left.
  - cbv zeta. intros H. right. split; [done|].
    apply bind_inv in H as (pos & mt0 & Hlen & H).
    assert (mt0 = called (Get_call k) mt) as ->.
    { symmetry. revert Hlen. apply (relates_getPathLength eq). }
    apply bind_inv in H as ([e s'] & mt1 & Hup & H).
    by exists pos, e, s', mt1.
Qed.

(** X9: a [Put] that returns an error leaves the root pointer where it
    was. *)
Theorem Put_error_keeps_root (k v : bytes) (mt mt' : merkleTreeImp) (e : error_value) :
  Put Sha256 getNodeHash storeAnswer Get k v mt = Some (Some e, mt') ->
  root mt' = root mt.
Proof.
  assert (Hins : forall uv mt0,
            Put_insert getNodeHash storeAnswer Get k v uv mt0 = Some (Some e, mt') ->
            root mt' = root mt0).
  { intros uv mt0 H.
    apply Put_insert_run in H as [(Hn & _)|(_ & pos & e1 & s' & mt1 & _ & Hup & Hfin)];
      [done|].
    apply upsert_same_root in Hup.
    apply Put_finish_run in Hfin as [(e2 & _ & _ & ->)|(r & _ & Hn & _)]; [|done].
    exact Hup. }
  unfold Put. destruct ((blen v =? 0) || (blen k =? 0)); [by intros [= _ <-]|].
  destruct (32 <? blen v); [|apply Hins].
  intros H. apply bind_inv in H as (err & mt0 & Hpv & H).
  injection Hpv as <- <-.
  destruct (storeAnswer _ _) as [e0|]; [by injection H as _ <-|].
  by apply Hins in H.
Qed.

(** X10: when the traversal returns a stack of two nodes or more and
    [Put] inserts and returns [nil], the root is the bottom node of that
    stack: [Put] keeps the root node object of the tree. *)
Theorem Put_keeps_root_node (k v : bytes) (mt mt' : merkleTreeImp) :
  k <> [] -> v <> [] ->
  negb (blen (Get (at_Get v mt) k).1.1 =? 0)
    && bytes_Equal (Get (at_Get v mt) k).1.1 v = false ->
  (2 <= length (Get (at_Get v mt) k).1.2)%nat ->
  Put Sha256 getNodeHash storeAnswer Get k v mt = Some (None, mt') ->
  root mt' = last (Get (at_Get v mt) k).1.2 /\ is_Some (root mt').
Proof.
  intros Hk Hv Hne Hlen.
  assert (Hins : forall uv,
            Put_insert getNodeHash storeAnswer Get k v uv (at_Get v mt) = Some (None, mt') ->
            root mt' = last (Get (at_Get v mt) k).1.2 /\ is_Some (root mt')).
  { intros uv H.
    apply Put_insert_run in H as [(_ & _ & Hdup)|(_ & pos & e1 & s' & mt1 & _ & Hup & Hfin)];
      [congruence|].
    apply upsert_stack_shape in Hup as (pre & -> & _ & _).
    apply Put_finish_run in Hfin as [(e2 & _ & ? & _)|(r & _ & _ & Hlast & ->)]; [done|].
    simpl. split; [|done]. rewrite <- Hlast.
    destruct (Get (at_Get v mt) k).1.2 as [|r0 [|r1 s0]]; simpl in Hlen; [lia|lia|].
    simpl tail. rewrite last_app. rewrite !last_cons.
    by destruct (last s0). }
  unfold at_Get in *. destruct (32 <? blen v) eqn:E.
  - rewrite Put_long by (done || lia).
    destruct (storeAnswer _ _) as [e0|]; [done|]. apply Hins.
  - rewrite Put_short by (done || lia). apply Hins.
Qed.

(** X11: when the traversal returns the empty stack and the value store
    accepts a long value, [Put] adds one node object, the Leaf with the
    whole nibble path of the key and the user value, persists it, makes it
    the root and returns [nil]; the root hash is the hash of that Leaf. *)
Theorem Put_first_insert (k v : bytes) (mt : merkleTreeImp) :
  k <> [] -> v <> [] ->
  (32 < blen v -> storeAnswer (calls mt) (persistUserValue_call v) = None) ->
  (Get (at_Get v mt) k).1.2 = [] ->
  negb (blen (Get (at_Get v mt) k).1.1 =? 0)
    && bytes_Equal (Get (at_Get v mt) k).1.1 v = false ->
  let leaf := LeafContainer (mkShort (hex_EncodeToString k) (userValue Sha256 v)) in
  let mt' := mkTree (objs mt ++ [leaf]) (Some (length (objs mt)))
                    (calls (at_Get v mt) ++ [Get_call k; persistNode_call leaf]) in
  Put Sha256 getNodeHash storeAnswer Get k v mt = Some (None, mt') /\
  rootHash getNodeHash mt' = Some (fst (getNodeHash leaf)).
Proof.
  intros Hk Hv Hacc Hstack Hne leaf mt'.
  assert (Hins : Put_insert getNodeHash storeAnswer Get k v (userValue Sha256 v) (at_Get v mt)
                 = Some (None, mt')).
  { destruct (Get (at_Get v mt) k) as [[res0 stack0] err0] eqn:HG. simpl in *. subst stack0.
    rewrite (Put_insert_not_stored _ _ _ _ _ _ _ _ _ _ HG Hne).
    rewrite (bind_run _ _ _ 0 (called (Get_call k) (at_Get v mt)) eq_refl).
    rewrite (bind_run _ _ _ _ _ (upsert_on_empty_stack _ _ _ _ _ _)).
    unfold Put_finish, bind, must, set_root, ret, mt', leaf. simpl.
    rewrite <- app_assoc. simpl.
    unfold at_Get. by destruct (32 <? blen v). }
  split.
  - unfold at_Get, userValue in *. destruct (32 <? blen v) eqn:E.
    + rewrite Put_long by (done || lia). rewrite Hacc by lia. exact Hins.
    + rewrite Put_short by (done || lia). exact Hins.
  - unfold rootHash, mt'. simpl. by rewrite lookup_alloc.
Qed.

End PutRoot.

(** X8 on the Branch of [branch_tree] and the key "ab". *)
Lemma upsert_replaces_top_witness :
  upsert example_getNodeHash store_accepts 1 "ab" hello [0%nat] branch_tree
    = Some ((None, [1%nat; 0%nat]), branch_tree_after_upsert) /\
  (exists pre, [1%nat; 0%nat] = pre ++ tail [0%nat] /\ pre <> [] /\ (length pre <= 3)%nat) /\
  root branch_tree_after_upsert = root branch_tree /\
  (length (objs branch_tree) <= length (objs branch_tree_after_upsert))%nat.
Proof.
  assert (H : upsert example_getNodeHash store_accepts 1 "ab" hello [0%nat] branch_tree
              = Some ((None, [1%nat; 0%nat]), branch_tree_after_upsert))
    by (vm_compute; reflexivity).
  split; [exact H|].
  exact (upsert_replaces_top example_getNodeHash store_accepts 1 "ab" hello [0%nat]
           branch_tree branch_tree_after_upsert None [1%nat; 0%nat] H).
Defined.

(** X9 on the Leaf "6131" and the key "a2", with the node store down:
    the [Put] fails when the shrunk leaf is persisted. *)
Lemma Put_error_keeps_root_witness :
  Put example_Sha256 example_getNodeHash node_store_down example_Get
      key_a2 hello leaf_tree = Some (Some (StoreFailure 1), leaf_tree_after_failed_Put) /\
  root leaf_tree_after_failed_Put = root leaf_tree.
Proof.
  assert (H : Put example_Sha256 example_getNodeHash node_store_down example_Get
                  key_a2 hello leaf_tree
              = Some (Some (StoreFailure 1), leaf_tree_after_failed_Put))
    by (vm_compute; reflexivity).
  split; [exact H|].
  exact (Put_error_keeps_root example_Sha256 example_getNodeHash node_store_down
           example_Get key_a2 hello leaf_tree leaf_tree_after_failed_Put _ H).
Defined.

(** X10 on the four Branch nodes and the key "ab". *)
Lemma Put_keeps_root_node_witness :
  key_ab <> [] /\ hello <> [] /\
  negb (blen (Get_deep (at_Get hello deep_tree) key_ab).1.1 =? 0)
    && bytes_Equal (Get_deep (at_Get hello deep_tree) key_ab).1.1 hello = false /\
  (2 <= length (Get_deep (at_Get hello deep_tree) key_ab).1.2)%nat /\
  Put example_Sha256 example_getNodeHash store_accepts Get_deep key_ab hello deep_tree
    = Some (None, deep_tree_after_Put) /\
  root deep_tree_after_Put = last (Get_deep (at_Get hello deep_tree) key_ab).1.2 /\
  is_Some (root deep_tree_after_Put).
Proof.
  assert (Hk : key_ab <> []) by discriminate.
  assert (Hv : hello <> []) by discriminate.
  assert (Hne : negb (blen (Get_deep (at_Get hello deep_tree) key_ab).1.1 =? 0)
                && bytes_Equal (Get_deep (at_Get hello deep_tree) key_ab).1.1 hello = false)
    by reflexivity.
  assert (Hlen : (2 <= length (Get_deep (at_Get hello deep_tree) key_ab).1.2)%nat)
    by (simpl; lia).
  assert (H : Put example_Sha256 example_getNodeHash store_accepts Get_deep key_ab hello
                  deep_tree = Some (None, deep_tree_after_Put))
    by (vm_compute; reflexivity).
  split; [exact Hk|]. split; [exact Hv|]. split; [exact Hne|]. split; [exact Hlen|].
  split; [exact H|].
  exact (Put_keeps_root_node example_Sha256 example_getNodeHash store_accepts Get_deep
           key_ab hello deep_tree deep_tree_after_Put Hk Hv Hne Hlen H).
Defined.

(** X11 on the empty tree, the key "a1" and the 40-byte value. *)
Lemma Put_first_insert_witness :
  key_a1 <> [] /\ long_value <> [] /\
  (32 < blen long_value ->
   store_accepts (calls empty_tree) (persistUserValue_call long_value) = None) /\
  (example_Get (at_Get long_value empty_tree) key_a1).1.2 = [] /\
  negb (blen (example_Get (at_Get long_value empty_tree) key_a1).1.1 =? 0)
    && bytes_Equal (example_Get (at_Get long_value empty_tree) key_a1).1.1 long_value
    = false /\
  Put example_Sha256 example_getNodeHash store_accepts example_Get
      key_a1 long_value empty_tree =
  Some (None,
        mkTree (objs empty_tree ++
                [LeafContainer (mkShort (hex_EncodeToString key_a1)
                                        (userValue example_Sha256 long_value))])
               (Some (length (objs empty_tree)))
               (calls (at_Get long_value empty_tree) ++
                [Get_call key_a1;
                 persistNode_call
                   (LeafContainer (mkShort (hex_EncodeToString key_a1)
                                           (userValue example_Sha256 long_value)))])).
Proof.
  assert (Hk : key_a1 <> []) by discriminate.
  assert (Hv : long_value <> []) by discriminate.
  assert (Hacc : 32 < blen long_value ->
                 store_accepts (calls empty_tree) (persistUserValue_call long_value) = None)
    by (intros _; reflexivity).
  assert (Hs : (example_Get (at_Get long_value empty_tree) key_a1).1.2 = []) by reflexivity.
  assert (Hne : negb (blen (example_Get (at_Get long_value empty_tree) key_a1).1.1 =? 0)
                && bytes_Equal (example_Get (at_Get long_value empty_tree) key_a1).1.1
                               long_value = false) by reflexivity.
  split; [exact Hk|]. split; [exact Hv|]. split; [exact Hacc|]. split; [exact Hs|].
  split; [exact Hne|].
  exact (proj1 (Put_first_insert example_Sha256 example_getNodeHash store_accepts
                  example_Get key_a1 long_value empty_tree Hk Hv Hacc Hs Hne)).
Defined.

(** ** [upsert] on a Branch *)

Lemma length_sdrop (n : nat) (k : string) :
  String.length (sdrop n k) = (String.length k - n)%nat.
Proof.
  revert k. induction n as [|n IH]; intros k; simpl; [lia|].
  destruct k as [|c k]; simpl; [done|]. apply IH.
Qed.

Lemma str_from_in_range (k : string) (i : Z) :
  0 <= i <= slen k ->
  str_from k i = Some (sdrop (Z.to_nat i) k) /\
  slen (sdrop (Z.to_nat i) k) = slen k - i.
Proof.
  intros Hi. unfold str_from.
  destruct (i <? 0) eqn:E1; [lia|]. destruct (slen k <? i) eqn:E2; [lia|].
  split; [done|]. unfold slen in *. rewrite length_sdrop. lia.
Qed.

Section UpsertBranch.

Context (getNodeHash : nodeContainer -> bytes * error)
        (storeAnswer : list call -> call -> error).

Lemma update_loop_rest k s lastRoot pos mt :
  Forall (fun r => (r < length (objs mt))%nat) s ->
  (forall lr, lastRoot = Some lr -> is_Some (objs mt !! lr)) ->
  pos < slen k ->
  exists e mt',
    update_loop getNodeHash storeAnswer k s lastRoot pos mt = Some (e, mt') /\
    (forall r, r ∉ s -> objs mt' !! r = objs mt !! r) /\
    appends persist_call mt mt'.
Proof.
  intros Hs Hlr Hpos.
  destruct (update_loop_returns getNodeHash storeAnswer k s lastRoot pos mt) as (e & mt' & H);
    [done| |done|].
  { intros lr Hl. apply lookup_lt_is_Some. by apply Hlr. }
  exists e, mt'. split; [done|]. split.
  - by eapply update_loop_frame.
  - revert H. apply (relates_update_loop (appends persist_call) persist_call);
      auto using appends_assign, appends_called.
Qed.

(** X12: when the top of the stack is a Branch and [pos] is inside the
    key, [upsert] creates a Leaf with the value and the path [k[pos+1:]],
    and [update] puts the hash of that Leaf into the Branch under the
    nibble [k[pos]]; both are persisted, the Leaf first, nothing is
    removed from the store, and [upsert] returns [nil] with the Leaf
    pushed on the stack. *)
Theorem upsert_branch_new_child (pos : Z) (k : string) (v : bytes) (r : ref)
        (s : stack) (b : branchNode) (mt : merkleTreeImp) :
  objs mt !! r = Some (BranchContainer b) ->
  0 <= pos < slen k ->
  r ∉ s ->
  Forall (fun r' => (r' < length (objs mt))%nat) s ->
  exists ch path mt',
    str_index k pos = Some ch /\
    str_from k (pos + 1) = Some path /\
    let leaf := LeafContainer (mkShort path v) in
    let branch := with_child (string_of_char ch) (fst (getNodeHash leaf)) (BranchContainer b) in
    upsert getNodeHash storeAnswer pos k v (r :: s) mt =
      Some ((None, length (objs mt) :: r :: s), mt') /\
    objs mt' !! length (objs mt) = Some leaf /\
    objs mt' !! r = Some branch /\
    exists t, calls mt' = calls mt ++ persistNode_call leaf :: persistNode_call branch :: t /\
              Forall persist_call t.
Proof.
  intros Hr Hpos Hrs Hs.
  destruct (str_index_in_range k pos Hpos) as [ch Hch].
  destruct (str_from_in_range k (pos + 1)) as [Hfrom Hlen]; [lia|].
  set (path := sdrop (Z.to_nat (pos + 1)) k) in *.
  set (leaf := LeafContainer (mkShort path v)).
  set (branch := with_child (string_of_char ch) (fst (getNodeHash leaf)) (BranchContainer b)).
  set (nl := length (objs mt)).
  assert (Hrlt : (r < nl)%nat) by by eapply lookup_lt_Some.
  set (mt1 := mkTree (objs mt ++ [leaf]) (root mt) (calls mt)).
  assert (Hnl1 : objs mt1 !! nl = Some leaf) by apply lookup_alloc.
  assert (Hr1 : objs mt1 !! r = Some (BranchContainer b)).
  { simpl. by rewrite lookup_app_l. }
  (* the two turns of the loop of update on the Leaf and the Branch *)
  set (mt2 := mkTree (<[nl := leaf]> (objs mt1)) (root mt1)
                     (calls mt1 ++ [persistNode_call leaf])).
  assert (Hr2 : objs mt2 !! r = Some (BranchContainer b)).
  { simpl. rewrite list_lookup_insert_ne by lia. by rewrite lookup_app_l. }
  assert (Hnl2 : objs mt2 !! nl = Some leaf).
  { simpl. apply list_lookup_insert_eq. rewrite length_app. simpl. lia. }
  set (mt3 := mkTree (<[r := branch]> (objs mt2)) (root mt2)
                     (calls mt2 ++ [persistNode_call branch])).
  destruct (update_loop_rest k s (Some r) (pos - 1) mt3) as (e & mt' & Hrest & Hfr & Hap).
  { eapply Forall_impl; [exact Hs|]. intros r' Hr'. simpl in *.
    rewrite !length_insert, length_app. simpl. lia. }
  { intros lr [= <-]. simpl. apply lookup_lt_is_Some.
    rewrite !length_insert, length_app. simpl. lia. }
  { lia. }
  assert (Hupd : update getNodeHash storeAnswer k (nl :: r :: s) mt1 = Some (e, mt')).
  { unfold update. change (stack_len (nl :: r :: s) =? 0) with false. cbv iota.
    unfold toSlice.
    rewrite (update_loop_step _ _ _ _ _ _ _ _ leaf Hnl1) by done.
    simpl relink. cbv iota beta.
    fold mt2.
    rewrite (update_loop_step _ _ _ _ _ _ _ _ (BranchContainer b) Hr2);
      [|intros lr [= <-]; by eexists].
    change (content_of mt2 (Some nl)) with (objs mt2 !! nl). rewrite Hnl2. unfold relink.
    replace (slen k - 1 - slen path) with pos by lia.
    destruct (pos <? 0) eqn:E1; [lia|]. destruct (pos =? slen k) eqn:E2; [lia|]. simpl.
    rewrite Hch. exact Hrest. }
  exists ch, path, mt'. split; [done|]. split; [done|]. cbv zeta.
  split; [|split; [|split]].
  - unfold upsert. change (stack_len (r :: s) =? 0) with false. cbv iota.
    rewrite (bind_run _ _ mt (r, s) mt eq_refl).
    rewrite (bind_run _ _ _ _ _ (is_leaf_run _ _ _ Hr)). cbn [isLeaf].
    rewrite (bind_run _ _ mt false mt eq_refl). cbv iota.
    rewrite (bind_run _ _ _ _ _ (is_branch_run _ _ _ Hr)). cbn [isBranch]. cbv zeta.
    destruct (pos <? slen k) eqn:E; [|lia].
    rewrite Hfrom. rewrite (bind_run _ _ mt path mt eq_refl).
    unfold newLeafNodeContainer. rewrite bind_assoc.
    rewrite (bind_run (alloc leaf) _ mt nl mt1 eq_refl).
    unfold bind at 1. unfold ret at 1. cbv beta iota.
    unfold push. by rewrite (bind_run _ _ _ _ _ Hupd).
  - rewrite Hfr.
    + simpl. rewrite list_lookup_insert_ne by lia. exact Hnl2.
    + intros Hin. rewrite Forall_forall in Hs. apply Hs in Hin. lia.
  - rewrite Hfr by done. simpl. apply list_lookup_insert_eq.
    rewrite length_insert, length_app. simpl. lia.
  - destruct Hap as (t & Ht & HF). exists t. split; [|done].
    rewrite Ht. simpl. by rewrite <- !app_assoc.
Qed.

Lemma setValue_run mt n v b :
  objs mt !! n = Some (BranchContainer b) ->
  setValue n v mt =
  Some (tt, mkTree (<[n := BranchContainer (mkBranch (bn_children b) v)]> (objs mt))
                   (root mt) (calls mt)).
Proof.
  intros Hn. unfold setValue.
  by rewrite (bind_run _ _ _ _ _ (deref_run _ _ _ Hn)).
Qed.

(** X13: when the top of the stack is a Branch and [pos] is at or past
    the end of the key, [upsert] stores the value as the Branch's own
    value and keeps its children; the Branch is removed from the store
    after the change, so the removal call carries its new content, and is
    then persisted; [upsert] returns [nil] with the stack as it was. *)
Theorem upsert_branch_value (pos : Z) (k : string) (v : bytes) (r : ref)
        (s : stack) (b : branchNode) (mt : merkleTreeImp) :
  objs mt !! r = Some (BranchContainer b) ->
  slen k <= pos ->
  r ∉ s ->
  Forall (fun r' => (r' < length (objs mt))%nat) s ->
  let branch := BranchContainer (mkBranch (bn_children b) v) in
  exists mt',
    upsert getNodeHash storeAnswer pos k v (r :: s) mt = Some ((None, r :: s), mt') /\
    objs mt' !! r = Some branch /\
    length (objs mt') = length (objs mt) /\
    exists t, calls mt' = calls mt ++ removeNodeFromStore_call branch
                                   :: persistNode_call branch :: t /\
              Forall persist_call t.
Proof.
  intros Hr Hpos Hrs Hs branch.
  assert (Hrlt : (r < length (objs mt))%nat) by by eapply lookup_lt_Some.
  set (mt1 := mkTree (<[r := branch]> (objs mt)) (root mt) (calls mt)).
  assert (Hr1 : objs mt1 !! r = Some branch) by by apply list_lookup_insert_eq.
  set (mt2 := called (removeNodeFromStore_call branch) mt1).
  assert (Hr2 : objs mt2 !! r = Some branch) by exact Hr1.
  destruct (relink_top getNodeHash k branch (slen k - 1)) as [pos' Htop].
  assert (Hpos' : pos' = slen k - 1) by (simpl in Htop; congruence).
  set (mt3 := mkTree (<[r := branch]> (objs mt2)) (root mt2)
                     (calls mt2 ++ [persistNode_call branch])).
  destruct (update_loop_rest k s (Some r) pos' mt3) as (e & mt' & Hrest & Hfr & Hap).
  { eapply Forall_impl; [exact Hs|]. intros r' Hr'. simpl in *.
    by rewrite !length_insert. }
  { intros lr [= <-]. simpl. apply lookup_lt_is_Some. by rewrite !length_insert. }
  { lia. }
  assert (Hupd : update getNodeHash storeAnswer k (r :: s) mt2 = Some (e, mt')).
  { unfold update. change (stack_len (r :: s) =? 0) with false. cbv iota.
    unfold toSlice.
    rewrite (update_loop_step _ _ _ _ _ _ _ _ branch Hr2) by done.
    change (content_of mt2 None) with (@None nodeContainer). rewrite Htop.
    exact Hrest. }
  exists mt'. split; [|split; [|split]].
  - unfold upsert. change (stack_len (r :: s) =? 0) with false. cbv iota.
    rewrite (bind_run _ _ mt (r, s) mt eq_refl).
    rewrite (bind_run _ _ _ _ _ (is_leaf_run _ _ _ Hr)). cbn [isLeaf].
    rewrite (bind_run _ _ mt false mt eq_refl). cbv iota.
    rewrite (bind_run _ _ _ _ _ (is_branch_run _ _ _ Hr)). cbn [isBranch]. cbv zeta.
    destruct (pos <? slen k) eqn:E; [lia|].
    rewrite (bind_run _ _ _ _ _ (setValue_run _ _ _ _ Hr)). fold branch. fold mt1.
    rewrite (bind_run _ _ _ _ _ (removeNodeFromStore_run _ _ _ _ Hr1)). fold mt2.
    unfold push. by rewrite (bind_run _ _ _ _ _ Hupd).
  - rewrite Hfr by done. simpl. apply list_lookup_insert_eq. by rewrite length_insert.
  - apply update_same_size in Hupd. unfold same_size in Hupd. rewrite Hupd. simpl.
    by rewrite length_insert.
  - destruct Hap as (t & Ht & HF). exists t. split; [|done].
    rewrite Ht. simpl. by rewrite <- !app_assoc.
Qed.

End UpsertBranch.

(** X12 on the Branch of [branch_tree] and the key "ab", with one nibble
    matched. *)
Lemma upsert_branch_new_child_witness :
  objs branch_tree !! 0%nat = Some branch_c /\
  0 <= 1 < slen "ab" /\
  (0%nat ∉ @nil ref) /\
  Forall (fun r' => (r' < length (objs branch_tree))%nat) (@nil ref) /\
  exists ch path mt',
    str_index "ab" 1 = Some ch /\
    str_from "ab" (1 + 1) = Some path /\
    upsert example_getNodeHash store_accepts 1 "ab" hello [0%nat] branch_tree =
      Some ((None, [length (objs branch_tree); 0%nat]), mt') /\
    objs mt' !! length (objs branch_tree) = Some (LeafContainer (mkShort path hello)).
Proof.
  assert (H1 : objs branch_tree !! 0%nat
               = Some (BranchContainer
                         (mkBranch (<["c" := example_Sha256 hello]>
                                      (<["d" := example_Sha256 key_a1]> ∅)) [])))
    by reflexivity.
  assert (H2 : 0 <= 1 < slen "ab") by (unfold slen; simpl; lia).
  assert (H3 : 0%nat ∉ @nil ref) by apply not_elem_of_nil.
  assert (H4 : Forall (fun r' => (r' < length (objs branch_tree))%nat) (@nil ref))
    by constructor.
  split; [exact H1|]. split; [exact H2|]. split; [exact H3|]. split; [exact H4|].
  destruct (upsert_branch_new_child example_getNodeHash store_accepts 1 "ab" hello
              0%nat [] _ branch_tree H1 H2 H3 H4)
    as (ch & path & mt' & Hch & Hp & Hup & Hl & _).
  exists ch, path, mt'. split; [exact Hch|]. split; [exact Hp|]. split; [exact Hup|exact Hl].
Defined.

(** X13 on the four Branch nodes and the key "ab", all of it matched. *)
Lemma upsert_branch_value_witness :
  objs deep_tree !! 3%nat = Some empty_branch /\
  slen "ab" <= 4 /\
  (3%nat ∉ [2%nat; 1%nat; 0%nat]) /\
  Forall (fun r' => (r' < length (objs deep_tree))%nat) [2%nat; 1%nat; 0%nat] /\
  exists mt',
    upsert example_getNodeHash store_accepts 4 "ab" hello deep_stack deep_tree
      = Some ((None, deep_stack), mt') /\
    objs mt' !! 3%nat = Some (BranchContainer (mkBranch ∅ hello)).
Proof.
  assert (H1 : objs deep_tree !! 3%nat = Some (BranchContainer (mkBranch ∅ [])))
    by reflexivity.
  assert (H2 : slen "ab" <= 4) by (unfold slen; simpl; lia).
  assert (H3 : 3%nat ∉ [2%nat; 1%nat; 0%nat]).
  { rewrite !not_elem_of_cons. repeat split; try discriminate. apply not_elem_of_nil. }
  assert (H4 : Forall (fun r' => (r' < length (objs deep_tree))%nat)
                      [2%nat; 1%nat; 0%nat]) by (repeat constructor).
  split; [exact H1|]. split; [exact H2|]. split; [exact H3|]. split; [exact H4|].
  destruct (upsert_branch_value example_getNodeHash store_accepts 4 "ab" hello
              3%nat [2%nat; 1%nat; 0%nat] _ deep_tree H1 H2 H3 H4)
    as (mt' & Hup & Hr & _).
  exists mt'. split; [exact Hup|exact Hr].
Defined.

(** ** [upsert] on a Leaf or an Extension *)

#[local] Instance quiet_preorder (r : ref) : PreOrder (quiet r).
Proof.
  split.
  - by intros mt.
  - intros mt1 mt2 mt3 [E1 H1] [E2 H2]. split; [congruence|]. auto.
Qed.

Lemma quiet_alloc r c : relates (quiet r) (alloc c).
Proof.
  intros mt a mt' H. injection H as _ <-. split; [done|].
  intros c0 Hc. simpl. rewrite lookup_app_l; [done|]. by eapply lookup_lt_Some.
Qed.

Lemma quiet_is_leaf r n : relates (quiet r) (is_leaf n).
Proof.
  unfold is_leaf. apply relates_bind; [apply _|apply relates_deref; apply _|].
  intros c. apply relates_ret; apply _.
Qed.

Lemma quiet_getPath r n : relates (quiet r) (getPath n).
Proof. apply relates_getPath; apply _. Qed.

Section UpsertShortNode.

Context (getNodeHash : nodeContainer -> bytes * error)
        (storeAnswer : list call -> call -> error).

(** After the removal of the popped node, [upsert] only persists. *)
Ltac persists_only :=
  repeat first
    [ apply relates_ret; apply _
    | apply relates_must; apply _
    | apply relates_deref; apply _
    | apply update_appends_persists
    | apply (relates_persistNode (appends persist_call) persist_call);
        auto using appends_called
    | apply (relates_assign (appends persist_call)); apply appends_assign
    | apply relates_bind; [apply _| |intros ?]
    | match goal with
      | |- relates _ (alloc _) =>
          let H := fresh in intros ? ? ? H; injection H as _ <-; apply appends_alloc
      | |- relates _ (match ?x with _ => _ end) => destruct x
      end
    | progress unfold newLeafNodeContainer, getValue, setPath, setExtChild,
        setValue, addBranchChild, getPath
    | progress cbv zeta ].

Lemma removed_then_persists mt mt1 mt' c :
  calls mt1 = calls mt ++ [removeNodeFromStore_call c] ->
  appends persist_call mt1 mt' ->
  exists t, calls mt' = calls mt ++ removeNodeFromStore_call c :: t /\ Forall persist_call t.
Proof.
  intros E (t' & E' & F). exists t'. split; [|done].
  rewrite E', E. by rewrite <- app_assoc.
Qed.

(** X14: when the top of the stack is a Leaf or an Extension, the first
    call [upsert] makes on the node store removes that node with the
    content it had, before anything of it is changed; every call after it
    persists a node. *)
Theorem upsert_short_node_removed_first (pos : Z) (k : string) (v : bytes) (r : ref)
        (s : stack) (c : nodeContainer) (mt mt' : merkleTreeImp) (res : error * stack) :
  objs mt !! r = Some c ->
  isBranch c = false ->
  upsert getNodeHash storeAnswer pos k v (r :: s) mt = Some (res, mt') ->
  exists t,
    calls mt' = calls mt ++ removeNodeFromStore_call c :: t /\ Forall persist_call t.
Proof.
  intros Hr Hnb H.
  unfold upsert in H. change (stack_len (r :: s) =? 0) with false in H. cbv iota in H.
  rewrite (bind_run _ _ mt (r, s) mt eq_refl) in H.
  rewrite (bind_run _ _ _ _ _ (is_leaf_run _ _ _ Hr)) in H.
  apply bind_inv in H as (exact & mtA & Hex & H).
  assert (HA : quiet r mt mtA).
  { revert Hex. destruct (isLeaf c); [|apply relates_ret; apply _].
    apply relates_bind; [apply _|apply relates_getPathLength; apply _|]. intros l.
    apply relates_bind; [apply _|apply quiet_getPath|]. intros lp.
    apply relates_bind; [apply _|apply relates_must; apply _|]. intros rest.
    apply relates_ret; apply _. }
  destruct HA as [EA HrA]. specialize (HrA c Hr).
  destruct exact.
  - (* case 2 *)
    rewrite (bind_run _ _ _ _ _ (removeNodeFromStore_run _ _ _ _ HrA)) in H.
    eapply (removed_then_persists mt (called (removeNodeFromStore_call c) mtA)).
    { simpl. by rewrite EA. }
    revert H. persists_only.
  - (* case 4 *)
    rewrite (bind_run _ _ _ _ _ (is_branch_run _ _ _ HrA)) in H. rewrite Hnb in H.
    apply bind_inv in H as (lastNodePath & mtB & HB & H).
    apply quiet_getPath with (r := r) in HB as [EB HrB]. specialize (HrB c HrA).
    apply bind_inv in H as (rest & mtC & HC & H).
    assert (mtC = mtB) as ->.
    { unfold must in HC. destruct (str_from k pos); [by injection HC|done]. }
    apply bind_inv in H as (shared & mtD & HD & H).
    assert (HqD : quiet r mtB mtD).
    { revert HD. destruct (0 <? slen (commonPrefix lastNodePath rest));
        [|apply relates_ret; apply _].
      apply relates_bind; [apply _|apply relates_must; apply _|]. intros key.
      apply relates_bind; [apply _| |].
      - unfold newExtNodeContainer.
        apply relates_bind; [apply _|apply quiet_alloc|]. intros n.
        apply relates_ret; apply _.
      - intros [ne [e|]]; [apply relates_ret; apply _|].
        apply relates_bind; [apply _| |intros ?; apply relates_ret; apply _].
        destruct (slen (commonPrefix lastNodePath rest) <? slen lastNodePath);
          [apply relates_must; apply _|apply relates_ret; apply _]. }
    destruct HqD as [ED HrD]. specialize (HrD c HrB).
    destruct shared as [e|[[s1 lnp] pos1]].
    { exfalso. clear -HD. invert_runs; no_constructor_error. }
    apply bind_inv in H as ([nb err] & mtE & HE & H).
    pose proof (newBranchNodeContainer_no_error _ _ _ _ HE) as ->.
    assert (HqE : quiet r mtD mtE).
    { revert HE. unfold newBranchNodeContainer.
      apply relates_bind; [apply _|apply quiet_alloc|]. intros n.
      apply relates_ret; apply _. }
    destruct HqE as [EE HrE]. specialize (HrE c HrD).
    apply bind_inv in H as (err & mtF & HF & H).
    assert (Hcalls : calls mtE = calls mt) by congruence.
    assert (HRF : exists mtR, calls mtR = calls mt ++ [removeNodeFromStore_call c] /\
                              appends persist_call mtR mtF).
    { destruct (0 <? slen lnp).
      - apply bind_inv in HF as (ch & mt0 & H0 & HF).
        assert (mt0 = mtE) as ->.
        { unfold must in H0. destruct (str_index lnp 0); [by injection H0|done]. }
        apply bind_inv in HF as (lnp' & mt0 & H0' & HF).
        assert (mt0 = mtE) as ->.
        { unfold must in H0'. destruct (str_from lnp 1); [by injection H0'|done]. }
        rewrite (bind_run _ _ _ _ _ (is_leaf_run _ _ _ HrE)) in HF.
        destruct ((0 <? slen lnp') || isLeaf c).
        + rewrite (bind_run _ _ _ _ _ (removeNodeFromStore_run _ _ _ _ HrE)) in HF.
          exists (called (removeNodeFromStore_call c) mtE).
          split; [simpl; by rewrite Hcalls|]. revert HF. persists_only.
        + rewrite (bind_run _ _ _ _ _ (removeNodeFromStore_run _ _ _ _ HrE)) in HF.
          exists (called (removeNodeFromStore_call c) mtE).
          split; [simpl; by rewrite Hcalls|]. revert HF. persists_only.
      - rewrite (bind_run _ _ _ _ _ (removeNodeFromStore_run _ _ _ _ HrE)) in HF.
        exists (called (removeNodeFromStore_call c) mtE).
        split; [simpl; by rewrite Hcalls|]. revert HF. unfold is_leaf. persists_only. }
    destruct HRF as (mtR & ER & HapR).
    eapply (removed_then_persists mt mtR); [exact ER|].
    etransitivity; [exact HapR|].
    revert H. destruct err as [e|]; [|destruct (pos1 <? slen k)]; persists_only.
Qed.

End UpsertShortNode.

(** X14 on the Leaf "6131" and the key "a2". *)
Lemma upsert_short_node_removed_first_witness :
  objs leaf_tree !! 0%nat = Some leaf_a1 /\
  isBranch leaf_a1 = false /\
  upsert example_getNodeHash store_accepts 0 "6132" hello [0%nat] leaf_tree
    = Some ((None, [3%nat; 2%nat; 1%nat]), leaf_tree_after_upsert) /\
  exists t,
    calls leaf_tree_after_upsert = calls leaf_tree ++ removeNodeFromStore_call leaf_a1 :: t /\
    Forall persist_call t.
Proof.
  assert (H1 : objs leaf_tree !! 0%nat = Some leaf_a1) by reflexivity.
  assert (H2 : isBranch leaf_a1 = false) by reflexivity.
  assert (H3 : upsert example_getNodeHash store_accepts 0 "6132" hello [0%nat] leaf_tree
               = Some ((None, [3%nat; 2%nat; 1%nat]), leaf_tree_after_upsert))
    by (vm_compute; reflexivity).
  split; [exact H1|]. split; [exact H2|]. split; [exact H3|].
  exact (upsert_short_node_removed_first example_getNodeHash store_accepts 0 "6132" hello
           0%nat [] leaf_a1 leaf_tree leaf_tree_after_upsert _ H1 H2 H3).
Defined.

(** ** [update] only rewrites child references *)

Lemma relinked_refl c : relinked c c.
Proof. by destruct c. Qed.

Lemma relinked_trans c1 c2 c3 : relinked c1 c2 -> relinked c2 c3 -> relinked c1 c3.
Proof.
  destruct c1, c2, c3; simpl; try done; congruence.
Qed.

Lemma relink_relinked getNodeHash k c last pos c' pos' :
  relink getNodeHash k c last pos = Some (inr (c', pos')) -> relinked c c'.
Proof.
  destruct c as [b|e|l]; simpl.
  - destruct last as [lc|]; [|by intros [= <- _]].
    destruct ((pos <? 0) || (pos =? slen k)); [done|].
    destruct (str_index k pos); [|done]. by intros [= <- _].
  - destruct last as [lc|]; [|by intros [= <- _]].
    destruct (getNodeHash lc) as [hash [err|]]; [done|]. by intros [= <- _].
  - by intros [= <- _].
Qed.

Section UpdateShapes.

Context (getNodeHash : nodeContainer -> bytes * error)
        (storeAnswer : list call -> call -> error).

Lemma update_loop_relinks k items lastRoot pos mt e mt' :
  update_loop getNodeHash storeAnswer k items lastRoot pos mt = Some (e, mt') ->
  (forall lr, lastRoot = Some lr -> is_Some (objs mt !! lr)) ->
  forall r c, objs mt !! r = Some c ->
              exists c', objs mt' !! r = Some c' /\ relinked c c'.
Proof.
  revert lastRoot pos mt. induction items as [|n rest IH]; intros lastRoot pos mt H Hlr r c Hc.
  - injection H as _ <-. exists c. split; [done|apply relinked_refl].
  - destruct (update_loop_cons_Some _ _ _ _ _ _ _ _ _ H) as [cn Hcn].
    rewrite (update_loop_step _ _ _ _ _ _ _ _ cn Hcn Hlr) in H.
    destruct (relink _ _ _ _ _) as [[e0|[c' pos']]|] eqn:Erel; [| |done].
    + injection H as _ <-. exists c. split; [done|apply relinked_refl].
    + apply relink_relinked in Erel.
      assert (Hlen : (n < length (objs mt))%nat) by by eapply lookup_lt_Some.
      destruct (decide (r = n)) as [->|Hne].
      * assert (c = cn) as -> by (unfold ref in *; simplify_eq; done).
        destruct (IH _ _ _ H) with (r := n) (c := c') as (c2 & Hc2 & Hrel).
        { intros lr [= <-]. simpl. apply lookup_lt_is_Some. by rewrite length_insert. }
        { simpl. by apply list_lookup_insert_eq. }
        exists c2. split; [done|]. by eapply relinked_trans.
      * apply (IH _ _ _ H).
        { intros lr [= <-]. simpl. apply lookup_lt_is_Some. by rewrite length_insert. }
        { simpl. by rewrite list_lookup_insert_ne. }
Qed.

Lemma update_relinks (k : string) (s : stack) (mt mt' : merkleTreeImp)
      (e : error) (r : ref) (c : nodeContainer) :
  update getNodeHash storeAnswer k s mt = Some (e, mt') ->
  objs mt !! r = Some c ->
  exists c', objs mt' !! r = Some c' /\ relinked c c'.
Proof.
  intros H Hc. unfold update in H. destruct (stack_len s =? 0).
  - injection H as _ <-. exists c. split; [done|apply relinked_refl].
  - by eapply update_loop_relinks.
Qed.

(** X15: [update] changes nothing of a node object but child references:
    every node keeps its kind and its stored path, a Leaf its value and a
    Branch its own value. *)
Theorem update_only_relinks (k : string) (s : stack) (mt mt' : merkleTreeImp)
        (e : error) (r : ref) (c : nodeContainer) :
  update getNodeHash storeAnswer k s mt = Some (e, mt') ->
  objs mt !! r = Some c ->
  exists c', objs mt' !! r = Some c' /\ relinked c c'.
Proof. apply update_relinks. Qed.

End UpdateShapes.

(** X15 on the empty-path Leaf over four Branch nodes: the Branch under
    the Leaf. *)
Lemma update_only_relinks_witness :
  update example_getNodeHash store_accepts "6131" deep_leaf_stack deep_leaf_tree
    = Some (None, tree_after_update) /\
  objs deep_leaf_tree !! 3%nat = Some empty_branch /\
  exists c', objs tree_after_update !! 3%nat = Some c' /\ relinked empty_branch c'.
Proof.
  assert (H : update example_getNodeHash store_accepts "6131" deep_leaf_stack deep_leaf_tree
              = Some (None, tree_after_update)) by (vm_compute; reflexivity).
  assert (Hc : objs deep_leaf_tree !! 3%nat = Some empty_branch) by reflexivity.
  split; [exact H|]. split; [exact Hc|].
  exact (update_only_relinks example_getNodeHash store_accepts "6131" deep_leaf_stack
           deep_leaf_tree tree_after_update None 3%nat empty_branch H Hc).
Defined.

(** ** [upsert] on a Leaf whose path is the rest of the key *)

Lemma str_from_Some (k : string) (i : Z) (p : string) :
  str_from k i = Some p -> 0 <= i <= slen k /\ slen p = slen k - i.
Proof.
  unfold str_from. destruct (i <? 0) eqn:E1; [done|]. destruct (slen k <? i) eqn:E2; [done|].
  simpl. intros [= <-]. unfold slen in *. rewrite length_sdrop. lia.
Qed.

Lemma stake_all (p : string) : stake (String.length p) p = p.
Proof. induction p as [|c p IH]; simpl; [done|]. by rewrite IH. Qed.

Lemma str_to_all (p : string) : str_to p (slen p) = Some p.
Proof.
  unfold str_to. destruct (slen p <? 0) eqn:E1; [apply Z.ltb_lt in E1; unfold slen in E1; lia|].
  rewrite Z.ltb_irrefl. simpl. unfold slen. by rewrite Nat2Z.id, stake_all.
Qed.

Lemma resolves_valid mt s nodes :
  resolves mt s nodes -> Forall (fun r => (r < length (objs mt))%nat) s.
Proof. induction 1; constructor; [by eapply lookup_lt_Some|done]. Qed.

Lemma bind_ret {A B} (a : A) (f : A -> M B) mt : bind (ret a) f mt = f a mt.
Proof. done. Qed.

Section UpsertLeaf.

Context (getNodeHash : nodeContainer -> bytes * error)
        (storeAnswer : list call -> call -> error).

(** X16: on a Leaf with a non-empty path that is exactly the rest of the
    key at [pos], the position [getPathLength] gives for the stack below
    it, [upsert] does not overwrite the Leaf's value.  It puts an Extension
    with the Leaf's path and a Branch that carries the OLD value on the
    stack, leaves the Leaf object as it is, and returns nil; the value it
    is given is used nowhere, so the tree it leaves is the same for every
    value. *)
Theorem upsert_matching_leaf_keeps_old_value (pos : Z) (k : string) (r : ref)
        (s : stack) (nodes : list nodeContainer) (p : string) (old : bytes)
        (mt : merkleTreeImp) :
  objs mt !! r = Some (LeafContainer (mkShort p old)) ->
  0 < slen p ->
  str_from k pos = Some p ->
  resolves mt s nodes ->
  total counted nodes = pos ->
  r ∉ s ->
  let ne := length (objs mt) in
  let nb := S (length (objs mt)) in
  exists mt',
    (forall v, upsert getNodeHash storeAnswer pos k v (r :: s) mt
               = Some ((None, nb :: ne :: s), mt')) /\
    objs mt' !! nb = Some (BranchContainer (mkBranch ∅ old)) /\
    objs mt' !! r = Some (LeafContainer (mkShort p old)) /\
    exists c, objs mt' !! ne = Some c /\ relinked (ExtContainer (mkShort p [])) c.
Proof.
  intros Hr Hp Hfrom Hs Hpos Hrs ne nb.
  destruct (str_from_Some _ _ _ Hfrom) as [Hrange Hlen].
  assert (Hvalid := resolves_valid _ _ _ Hs).
  assert (Hrlt : (r < ne)%nat) by by eapply lookup_lt_Some.
  set (leaf := LeafContainer (mkShort p old)) in *.
  set (ext := ExtContainer (mkShort p [])).
  set (mtE := mkTree (objs mt ++ [ext]) (root mt) (calls mt)).
  set (mtB := mkTree (objs mtE ++ [BranchContainer (mkBranch ∅ [])]) (root mtE) (calls mtE)).
  set (mtR := called (removeNodeFromStore_call leaf) mtB).
  set (mtV := mkTree (<[nb := BranchContainer (mkBranch ∅ old)]> (objs mtR))
                     (root mtR) (calls mtR)).
  assert (HrB : objs mtB !! r = Some leaf).
  { simpl. rewrite <- app_assoc. by rewrite lookup_app_l. }
  assert (HnbB : objs mtB !! nb = Some (BranchContainer (mkBranch ∅ []))).
  { simpl. replace nb with (length (objs mt ++ [ext])); [apply lookup_alloc|].
    rewrite length_app. simpl. unfold nb. lia. }
  assert (HlenV : length (objs mtV) = S (S ne)).
  { simpl. rewrite length_insert, !length_app. simpl. unfold ne. lia. }
  destruct (update_returns getNodeHash storeAnswer k (nb :: ne :: s) mtV) as (e & mt' & Hu).
  { rewrite HlenV. constructor; [unfold nb, ne; lia|]. constructor; [lia|].
    eapply Forall_impl; [exact Hvalid|]. intros r' Hr'. simpl in Hr'. unfold ne. lia. }
  exists mt'. split; [|split; [|split]].
  - intros v. unfold upsert. change (stack_len (r :: s) =? 0) with false. cbv iota.
    rewrite (bind_run _ _ mt (r, s) mt eq_refl).
    rewrite (bind_run _ _ _ _ _ (is_leaf_run _ _ _ Hr)). cbn [isLeaf leaf].
    rewrite bind_assoc.
    assert (Hl : getPathLength s mt = Some (pos, mt)).
    { unfold getPathLength, toSlice.
      rewrite (getPathLength_loop_counted mt s nodes 0 Hs). by rewrite Hpos. }
    rewrite (bind_run _ _ _ _ _ Hl). rewrite bind_assoc.
    rewrite (bind_run _ _ _ _ _ (getPath_run _ _ _ _ Hr eq_refl)). cbn [sn_path].
    rewrite bind_assoc. rewrite Hfrom. rewrite (bind_run _ _ mt p mt eq_refl).
    cbv zeta. rewrite commonPrefix_diag, Z.eqb_refl.
    destruct (pos =? slen k) eqn:E; [lia|]. cbn [andb].
    rewrite (bind_run _ _ mt false mt eq_refl). cbv iota.
    rewrite (bind_run _ _ _ _ _ (is_branch_run _ _ _ Hr)). cbn [isBranch leaf]. cbv iota.
    rewrite (bind_run _ _ _ _ _ (getPath_run _ _ _ _ Hr eq_refl)). cbn [sn_path].
    rewrite (bind_run _ _ mt p mt eq_refl).
    rewrite commonPrefix_diag.
    destruct (0 <? slen p) eqn:E0; [|lia].
    rewrite bind_assoc. rewrite str_to_all. rewrite (bind_run _ _ mt p mt eq_refl).
    unfold newExtNodeContainer. rewrite !bind_assoc.
    rewrite (bind_run (alloc ext) _ mt ne mtE eq_refl).
    rewrite bind_ret. cbv iota beta.
    rewrite Z.ltb_irrefl. rewrite bind_assoc.
    rewrite bind_ret. rewrite bind_ret.
    cbv iota beta.
    unfold newBranchNodeContainer. rewrite !bind_assoc.
    rewrite (bind_run (alloc (BranchContainer (mkBranch ∅ []))) _ mtE nb mtB);
      [|unfold alloc; simpl; do 3 f_equal; rewrite length_app; simpl; unfold nb, ne; lia].
    rewrite bind_ret. cbv iota beta.
    change (0 <? slen "") with false. cbv iota.
    rewrite bind_assoc.
    rewrite (bind_run _ _ _ _ _ (removeNodeFromStore_run _ _ _ _ HrB)). fold mtR.
    rewrite bind_assoc.
    rewrite (bind_run _ _ _ _ _ (is_leaf_run mtR r leaf HrB)). cbn [isLeaf leaf]. cbv iota.
    rewrite bind_assoc.
    assert (Hval : getValue r mtR = Some (old, mtR)).
    { unfold getValue. by rewrite (bind_run _ _ _ _ _ (deref_run mtR r leaf HrB)). }
    rewrite (bind_run _ _ _ _ _ Hval). rewrite bind_assoc.
    rewrite (bind_run _ _ _ _ _ (setValue_run mtR nb old _ HnbB)).
    rewrite bind_ret.
    destruct (pos + slen p <? slen k) eqn:E1; [lia|].
    unfold push. fold mtV. by rewrite (bind_run _ _ _ _ _ Hu).
  - pose proof (update_untouched _ _ _ _ _ _ _ Hu) as Hfr. rewrite Hfr.
    + simpl. apply list_lookup_insert_eq. rewrite !length_app. simpl. unfold nb. lia.
    + simpl. intros Hin. apply elem_of_cons in Hin as [Hin|Hin]; [unfold nb, ne in Hin; lia|].
      rewrite Forall_forall in Hvalid. apply Hvalid in Hin. unfold nb in Hin. lia.
  - pose proof (update_untouched _ _ _ _ _ _ _ Hu) as Hfr. rewrite Hfr.
    + simpl. rewrite list_lookup_insert_ne by (unfold nb; lia). exact HrB.
    + simpl. intros Hin. apply elem_of_cons in Hin as [Hin|Hin]; [lia|done].
  - apply (update_relinks _ _ _ _ _ _ _ ne ext) in Hu; [done|].
    simpl. rewrite list_lookup_insert_ne by (unfold nb, ne; lia).
    rewrite lookup_app_l by (rewrite length_app; simpl; unfold ne; lia).
    apply lookup_alloc.
Qed.

End UpsertLeaf.

(** X16 on the Leaf "6131" and its own key: a second value for the key
    "a1" is not stored. *)
Lemma upsert_matching_leaf_keeps_old_value_witness :
  objs leaf_tree !! 0%nat = Some (LeafContainer (mkShort "6131" hello)) /\
  0 < slen "6131" /\
  str_from "6131" 0 = Some "6131" /\
  resolves leaf_tree [] [] /\
  total counted [] = 0 /\
  (0%nat ∉ ([] : stack)) /\
  exists mt',
    (forall v, upsert example_getNodeHash store_accepts 0 "6131" v [0%nat] leaf_tree
               = Some ((None, [2%nat; 1%nat]), mt')) /\
    objs mt' !! 2%nat = Some (BranchContainer (mkBranch ∅ hello)) /\
    objs mt' !! 0%nat = Some (LeafContainer (mkShort "6131" hello)) /\
    exists c, objs mt' !! 1%nat = Some c /\ relinked (ExtContainer (mkShort "6131" [])) c.
Proof.
  assert (H1 : objs leaf_tree !! 0%nat = Some (LeafContainer (mkShort "6131" hello)))
    by reflexivity.
  assert (H2 : 0 < slen "6131") by (vm_compute; reflexivity).
  assert (H3 : str_from "6131" 0 = Some "6131") by reflexivity.
  assert (H4 : resolves leaf_tree [] []) by constructor.
  assert (H5 : total counted [] = 0) by reflexivity.
  assert (H6 : 0%nat ∉ ([] : stack)) by apply not_elem_of_nil.
  do 6 (split; [assumption|]).
  exact (upsert_matching_leaf_keeps_old_value example_getNodeHash store_accepts
           0 "6131" 0%nat [] [] "6131" hello leaf_tree H1 H2 H3 H4 H5 H6).
Defined.

(** X2 on the keys "a1" and "a1". *)
Lemma hex_EncodeToString_inj_witness :
  hex_EncodeToString key_a1 = hex_EncodeToString key_a1 /\ key_a1 = key_a1.
Proof.
  assert (H : hex_EncodeToString key_a1 = hex_EncodeToString key_a1) by reflexivity.
  split; [exact H|]. exact (hex_EncodeToString_inj key_a1 key_a1 H).
Defined.

(** ** [upsert] on a Leaf that shares part of its path with the key *)

Lemma get_sdrop (n m : nat) (s : string) :
  String.get n (sdrop m s) = String.get (m + n) s.
Proof.
  revert s. induction m as [|m IH]; intros s; simpl; [done|].
  destruct s as [|c s]; simpl; [by destruct n|]. apply IH.
Qed.

Lemma sdrop_sdrop (a b : nat) (s : string) : sdrop a (sdrop b s) = sdrop (b + a) s.
Proof.
  revert s. induction b as [|b IH]; intros s; simpl; [done|].
  destruct s as [|c s]; simpl; [by destruct a|]. apply IH.
Qed.

Lemma stake_commonPrefix (a b : string) :
  stake (String.length (commonPrefix a b)) a = commonPrefix a b.
Proof.
  revert b. induction a as [|x a IH]; intros [|y b]; simpl; try done.
  destruct (Ascii.eqb x y); simpl; [|done]. by rewrite IH.
Qed.

Lemma commonPrefix_differs (a b : string) (c0 c1 : ascii) :
  String.get (String.length (commonPrefix a b)) a = Some c0 ->
  String.get (String.length (commonPrefix a b)) b = Some c1 ->
  c0 <> c1.
Proof.
  revert b. induction a as [|x a IH]; intros [|y b]; simpl; try done.
  destruct (Ascii.eqb x y) eqn:E; simpl.
  - apply IH.
  - intros [= <-] [= <-] ->. by rewrite Ascii.eqb_refl in E.
Qed.

Lemma str_index_get (s : string) (i : Z) :
  0 <= i < slen s -> str_index s i = String.get (Z.to_nat i) s.
Proof.
  intros Hi. unfold str_index.
  destruct (i <? 0) eqn:E1; [lia|]. by destruct (slen s <=? i) eqn:E2; [lia|].
Qed.

Lemma setPath_run mt n p c c' :
  objs mt !! n = Some c -> with_path p c = Some c' ->
  setPath n p mt = Some (tt, mkTree (<[n := c']> (objs mt)) (root mt) (calls mt)).
Proof.
  intros Hn Hc. unfold setPath.
  rewrite (bind_run _ _ _ _ _ (deref_run _ _ _ Hn)). by rewrite Hc.
Qed.

Lemma bind_must {A B} (a : A) (f : A -> M B) mt : bind (must (Some a)) f mt = f a mt.
Proof. done. Qed.

Section UpsertSplit.

Context (getNodeHash : nodeContainer -> bytes * error)
        (storeAnswer : list call -> call -> error).

(** X17: [upsert] on a Leaf whose path and the rest of the key at [pos]
    part after a common prefix [cp], both going on beyond it, with a node
    store that accepts what it is given.  The Leaf keeps its value and the
    part of its path after the nibble [c0] that follows [cp]; a new Leaf
    holds the value and the part of the key after its nibble [c1]; [c0] and
    [c1] differ and a new Branch refers to the two Leaf nodes under them.
    When [cp] is not empty a new Extension with the path [cp] is put under
    the Branch.  The store is told to remove the Leaf as it was, then to
    persist the shortened Leaf, the new Leaf and the Branch. *)
Theorem upsert_splits_leaf (pos : Z) (k : string) (v : bytes) (r : ref) (s : stack)
        (nodes : list nodeContainer) (lp : string) (old : bytes) (kr : string)
        (mt : merkleTreeImp) :
  objs mt !! r = Some (LeafContainer (mkShort lp old)) ->
  resolves mt s nodes ->
  total counted nodes = pos ->
  r ∉ s ->
  str_from k pos = Some kr ->
  slen (commonPrefix lp kr) < slen lp ->
  slen (commonPrefix lp kr) < slen kr ->
  (forall before c, storeAnswer before (persistNode_call c) = None) ->
  let cp := commonPrefix lp kr in
  let s0 := if 0 <? slen cp then length (objs mt) :: s else s in
  let nb := if 0 <? slen cp then S (length (objs mt)) else length (objs mt) in
  exists c0 c1 p' q mt',
    str_index lp (slen cp) = Some c0 /\
    str_index kr (slen cp) = Some c1 /\
    c0 <> c1 /\
    str_from lp (slen cp + 1) = Some p' /\
    str_from kr (slen cp + 1) = Some q /\
    let shrunk := LeafContainer (mkShort p' old) in
    let newLeaf := LeafContainer (mkShort q v) in
    let branch :=
      BranchContainer
        (mkBranch (<[string_of_char c1 := fst (getNodeHash newLeaf)]>
                     (<[string_of_char c0 := fst (getNodeHash shrunk)]> ∅)) []) in
    upsert getNodeHash storeAnswer pos k v (r :: s) mt
      = Some ((None, S nb :: nb :: s0), mt') /\
    objs mt' !! r = Some shrunk /\
    objs mt' !! S nb = Some newLeaf /\
    objs mt' !! nb = Some branch /\
    (0 < slen cp ->
     exists c, objs mt' !! length (objs mt) = Some c /\
               relinked (ExtContainer (mkShort cp [])) c) /\
    exists t,
      calls mt' =
        calls mt ++ removeNodeFromStore_call (LeafContainer (mkShort lp old))
          :: persistNode_call shrunk :: persistNode_call newLeaf
          :: persistNode_call branch :: t /\
      Forall persist_call t.
Proof.
  intros Hr Hs Hpos Hrs Hfrom Hlp Hkr Hstore cp s0 nb.
  destruct (str_from_Some _ _ _ Hfrom) as [Hrange Hlen].
  fold cp in Hlp, Hkr. set (cpl := slen cp) in *.
  assert (Hcpl0 : 0 <= cpl) by (unfold cpl, slen; lia).
  assert (Hvalid := resolves_valid _ _ _ Hs).
  assert (Hrlt : (r < length (objs mt))%nat) by by eapply lookup_lt_Some.
  destruct (str_index_in_range lp cpl) as [c0 Hc0]; [lia|].
  destruct (str_index_in_range kr cpl) as [c1 Hc1]; [lia|].
  assert (Hne01 : c0 <> c1).
  { pose proof Hc0 as G0. pose proof Hc1 as G1.
    rewrite str_index_get in G0 by lia. rewrite str_index_get in G1 by lia.
    unfold cpl, slen in G0, G1. rewrite Nat2Z.id in G0, G1.
    by eapply commonPrefix_differs. }
  destruct (str_from_in_range lp (cpl + 1)) as [Hp' Hp'len]; [lia|].
  destruct (str_from_in_range kr (cpl + 1)) as [Hq Hqlen]; [lia|].
  set (p' := sdrop (Z.to_nat (cpl + 1)) lp) in *.
  set (q := sdrop (Z.to_nat (cpl + 1)) kr) in *.
  exists c0, c1, p', q.
  set (leaf := LeafContainer (mkShort lp old)) in *.
  set (shrunk := LeafContainer (mkShort p' old)).
  set (newLeaf := LeafContainer (mkShort q v)).
  set (branch1 := with_child (string_of_char c0) (fst (getNodeHash shrunk))
                    (BranchContainer (mkBranch ∅ []))).
  set (branch := with_child (string_of_char c1) (fst (getNodeHash newLeaf)) branch1).
  set (ext := ExtContainer (mkShort cp [])).
  (* the key [k] at the places the code reads it *)
  assert (Hkr_eq : kr = sdrop (Z.to_nat pos) k).
  { unfold str_from in Hfrom. destruct ((pos <? 0) || (slen k <? pos)); [done|].
    by injection Hfrom. }
  assert (Hk_c1 : str_index k (pos + cpl) = Some c1).
  { rewrite str_index_get by lia. rewrite str_index_get in Hc1 by lia.
    rewrite Hkr_eq, get_sdrop in Hc1. rewrite <- Hc1. f_equal. lia. }
  assert (Hk_q : str_from k (pos + cpl + 1) = Some q).
  { destruct (str_from_in_range k (pos + cpl + 1)) as [E _]; [lia|]. rewrite E. f_equal.
    unfold q. rewrite Hkr_eq, sdrop_sdrop. f_equal. lia. }
  (* what is left of the path of the Leaf after the common prefix *)
  destruct (str_from_in_range lp cpl) as [Hlnp Hlnp_len]; [lia|].
  set (lnp := sdrop (Z.to_nat cpl) lp) in *.
  assert (Hlnp0 : str_index lnp 0 = Some c0).
  { rewrite str_index_get by lia. rewrite str_index_get in Hc0 by lia.
    unfold lnp. rewrite get_sdrop. simpl. by rewrite Nat.add_0_r. }
  assert (Hlnp1 : str_from lnp 1 = Some p').
  { destruct (str_from_in_range lnp 1) as [E _]; [lia|]. rewrite E. f_equal.
    unfold lnp, p'. rewrite sdrop_sdrop. f_equal. lia. }
  assert (Hto : str_to lp cpl = Some cp).
  { unfold str_to. destruct (cpl <? 0) eqn:E1; [lia|]. destruct (slen lp <? cpl) eqn:E2; [lia|].
    simpl. f_equal. unfold cpl, slen. rewrite Nat2Z.id. apply stake_commonPrefix. }
  (* the tree once the Extension, if any, is there *)
  set (mtS := if 0 <? cpl then mkTree (objs mt ++ [ext]) (root mt) (calls mt) else mt).
  assert (HSc : calls mtS = calls mt) by (unfold mtS; by destruct (0 <? cpl)).
  assert (HSlen : length (objs mtS) = nb).
  { unfold mtS, nb. destruct (0 <? cpl); [|done]. simpl. rewrite length_app. simpl. lia. }
  assert (HSr : objs mtS !! r = Some leaf).
  { unfold mtS. destruct (0 <? cpl); [|done]. simpl. by rewrite lookup_app_l. }
  assert (Hnb : (length (objs mt) <= nb)%nat) by (unfold nb; destruct (0 <? cpl); lia).
  assert (HSs : Forall (fun r' => (r' < nb)%nat) s0).
  { unfold s0, nb. destruct (0 <? cpl).
    - constructor; [lia|]. eapply Forall_impl; [exact Hvalid|]. intros; simpl in *; lia.
    - done. }
  assert (HSrs : r ∉ s0).
  { unfold s0. destruct (0 <? cpl); [|done]. apply not_elem_of_cons. split; [lia|done]. }
  assert (HSe : 0 < cpl -> objs mtS !! length (objs mt) = Some ext).
  { intros H0. unfold mtS. destruct (0 <? cpl) eqn:E; [|lia]. simpl. apply lookup_alloc. }
  (* the Branch, the Leaf shortened and the new Leaf *)
  set (mtB := mkTree (objs mtS ++ [BranchContainer (mkBranch ∅ [])]) (root mtS) (calls mtS)).
  set (mtR := called (removeNodeFromStore_call leaf) mtB).
  set (mtP := mkTree (<[r := shrunk]> (objs mtR)) (root mtR) (calls mtR)).
  set (mtC := mkTree (<[nb := branch1]> (objs mtP)) (root mtP) (calls mtP)).
  set (mtQ := called (persistNode_call shrunk) mtC).
  set (mtL := mkTree (objs mtQ ++ [newLeaf]) (root mtQ) (calls mtQ)).
  assert (HBr : objs mtB !! r = Some leaf).
  { simpl. rewrite lookup_app_l by lia. done. }
  assert (HBnb : objs mtB !! nb = Some (BranchContainer (mkBranch ∅ []))).
  { simpl. rewrite <- HSlen. apply lookup_alloc. }
  assert (HBlen : length (objs mtB) = S nb).
  { simpl. rewrite length_app. simpl. lia. }
  assert (HPr : objs mtP !! r = Some shrunk).
  { simpl. apply list_lookup_insert_eq. rewrite length_app. simpl. lia. }
  assert (HPnb : objs mtP !! nb = Some (BranchContainer (mkBranch ∅ []))).
  { simpl. rewrite list_lookup_insert_ne by lia. exact HBnb. }
  assert (HCr : objs mtC !! r = Some shrunk).
  { simpl. rewrite list_lookup_insert_ne by lia. exact HPr. }
  assert (HQlen : length (objs mtQ) = S nb).
  { simpl. rewrite !length_insert. exact HBlen. }
  assert (HLnl : objs mtL !! S nb = Some newLeaf).
  { simpl. rewrite <- HQlen. apply lookup_alloc. }
  (* the turns of the loop of update on the new Leaf and on the Branch *)
  set (mt2 := mkTree (<[S nb := newLeaf]> (objs mtL)) (root mtL)
                     (calls mtL ++ [persistNode_call newLeaf])).
  assert (H2nb : objs mt2 !! nb = Some branch1).
  { simpl. rewrite list_lookup_insert_ne by lia.
    rewrite lookup_app_l by (rewrite !length_insert, length_app; simpl; lia).
    apply list_lookup_insert_eq. rewrite length_insert, length_app. simpl. lia. }
  assert (H2nl : objs mt2 !! S nb = Some newLeaf).
  { simpl. apply list_lookup_insert_eq.
    rewrite length_app, !length_insert, length_app. simpl. lia. }
  set (mt3 := mkTree (<[nb := branch]> (objs mt2)) (root mt2)
                     (calls mt2 ++ [persistNode_call branch])).
  assert (H3len : length (objs mt3) = S (S nb)).
  { simpl. rewrite !length_insert, length_app, !length_insert, length_app. simpl. lia. }
  destruct (update_loop_rest getNodeHash storeAnswer k s0 (Some nb) (pos + cpl - 1) mt3)
    as (e & mt' & Hrest & Hfr & Hap).
  { rewrite H3len. eapply Forall_impl; [exact HSs|]. intros; simpl in *; lia. }
  { intros lr [= <-]. apply lookup_lt_is_Some. rewrite H3len. lia. }
  { lia. }
  assert (Hupd : update getNodeHash storeAnswer k (S nb :: nb :: s0) mtL = Some (e, mt')).
  { unfold update. change (stack_len (S nb :: nb :: s0) =? 0) with false. cbv iota.
    unfold toSlice.
    rewrite (update_loop_step _ _ _ _ _ _ _ _ newLeaf HLnl) by done.
    simpl relink. cbv iota beta. fold mt2.
    rewrite (update_loop_step _ _ _ _ _ _ _ _ branch1 H2nb);
      [|intros lr [= <-]; by eexists].
    change (content_of mt2 (Some (S nb))) with (objs mt2 !! S nb). rewrite H2nl.
    unfold branch1 at 1. cbn [with_child relink].
    replace (slen k - 1 - slen q) with (pos + cpl) by lia.
    destruct (pos + cpl <? 0) eqn:E1; [lia|].
    destruct (pos + cpl =? slen k) eqn:E2; [lia|]. simpl orb. cbv iota.
    rewrite Hk_c1. exact Hrest. }
  exists mt'. do 5 (split; [done|]). cbv zeta. fold shrunk newLeaf.
  change (BranchContainer
            (mkBranch (<[string_of_char c1 := (getNodeHash newLeaf).1]>
                         (<[string_of_char c0 := (getNodeHash shrunk).1]> ∅)) []))
    with branch.
  split; [|split; [|split; [|split; [|split]]]].
  - unfold upsert. change (stack_len (r :: s) =? 0) with false. cbv iota.
    rewrite (bind_run _ _ mt (r, s) mt eq_refl).
    rewrite (bind_run _ _ _ _ _ (is_leaf_run _ _ _ Hr)). cbn [isLeaf leaf].
    rewrite bind_assoc.
    assert (Hl : getPathLength s mt = Some (pos, mt)).
    { unfold getPathLength, toSlice.
      rewrite (getPathLength_loop_counted mt s nodes 0 Hs). by rewrite Hpos. }
    rewrite (bind_run _ _ _ _ _ Hl). rewrite bind_assoc.
    rewrite (bind_run _ _ _ _ _ (getPath_run _ _ _ _ Hr eq_refl)). cbn [sn_path].
    rewrite bind_assoc. rewrite Hfrom. rewrite bind_must.
    cbv zeta. fold cp. fold cpl.
    destruct (cpl =? slen lp) eqn:E; [lia|]. cbn [andb].
    rewrite bind_ret. cbv iota.
    rewrite (bind_run _ _ _ _ _ (is_branch_run _ _ _ Hr)). cbn [isBranch leaf]. cbv iota.
    rewrite (bind_run _ _ _ _ _ (getPath_run _ _ _ _ Hr eq_refl)). cbn [sn_path].
    rewrite bind_must. fold cp. fold cpl.
    match goal with
    | |- bind ?m _ mt = _ =>
        assert (Hshared : m mt = Some (inr (s0, lnp, pos + cpl), mtS))
    end.
    { unfold s0, mtS. fold cpl. destruct (0 <? cpl) eqn:E0.
      - rewrite Hto, bind_must. unfold newExtNodeContainer. rewrite bind_assoc.
        rewrite (bind_run (alloc ext) _ mt (length (objs mt))
                   (mkTree (objs mt ++ [ext]) (root mt) (calls mt)) eq_refl).
        rewrite bind_ret. cbv iota beta.
        destruct (cpl <? slen lp) eqn:E2; [|lia].
        rewrite Hlnp, bind_must. reflexivity.
      - unfold lnp. replace cpl with 0 by lia. simpl. by rewrite Z.add_0_r. }
    rewrite (bind_run _ _ _ _ _ Hshared). cbv iota beta.
    unfold newBranchNodeContainer. rewrite bind_assoc.
    rewrite (bind_run (alloc (BranchContainer (mkBranch ∅ []))) _ mtS nb mtB);
      [|unfold alloc; by rewrite HSlen].
    rewrite bind_ret. cbv iota beta.
    destruct (0 <? slen lnp) eqn:E3; [|lia].
    rewrite bind_assoc, Hlnp0, bind_must.
    rewrite bind_assoc, Hlnp1, bind_must.
    rewrite bind_assoc.
    rewrite (bind_run _ _ _ _ _ (is_leaf_run mtB r leaf HBr)). cbn [isLeaf leaf].
    rewrite orb_true_r. cbv iota.
    rewrite bind_assoc.
    rewrite (bind_run _ _ mtB _ mtR (removeNodeFromStore_run _ _ _ _ HBr)).
    rewrite bind_assoc.
    rewrite (bind_run _ _ mtR tt mtP (setPath_run mtR r p' leaf shrunk HBr eq_refl)).
    rewrite bind_assoc.
    rewrite (bind_run _ _ mtP tt mtC
               (addBranchChild_run getNodeHash mtP nb (string_of_char c0) r _ _ HPnb HPr)).
    rewrite (bind_run _ _ mtC _ mtQ (persistNode_run storeAnswer mtC r shrunk HCr)).
    rewrite Hstore. cbv iota.
    destruct (pos + cpl <? slen k) eqn:E4; [|lia].
    rewrite Hk_q, bind_must.
    unfold newLeafNodeContainer. rewrite bind_assoc.
    rewrite (bind_run (alloc newLeaf) _ mtQ (S nb) mtL);
      [|unfold alloc; by rewrite HQlen].
    rewrite bind_ret. cbv iota beta. unfold push.
    by rewrite (bind_run _ _ _ _ _ Hupd).
  - rewrite Hfr by done. simpl.
    rewrite !list_lookup_insert_ne by lia.
    rewrite lookup_app_l by (rewrite !length_insert, length_app; simpl; lia).
    rewrite list_lookup_insert_ne by lia. exact HPr.
  - rewrite Hfr.
    + simpl. rewrite list_lookup_insert_ne by lia. exact H2nl.
    + intros Hin. rewrite Forall_forall in HSs. apply HSs in Hin. lia.
  - rewrite Hfr.
    + simpl. apply list_lookup_insert_eq.
      rewrite length_insert, length_app, !length_insert, length_app. simpl. lia.
    + intros Hin. rewrite Forall_forall in HSs. apply HSs in Hin. lia.
  - intros H0.
    apply (update_relinks _ _ _ _ _ _ _ (length (objs mt)) ext) in Hupd; [done|].
    assert (Hlt : (length (objs mt) < nb)%nat).
    { unfold nb. destruct (0 <? cpl) eqn:E; lia. }
    simpl. rewrite lookup_app_l by (rewrite !length_insert, length_app; simpl; lia).
    rewrite !list_lookup_insert_ne by lia.
    rewrite lookup_app_l by lia. by apply HSe.
  - destruct Hap as (t & Ht & HF). exists t. split; [|done].
    rewrite Ht. simpl. rewrite HSc. by rewrite <- !app_assoc.
Qed.

End UpsertSplit.

(** X17 on the Leaf "6131" and the key "a2", whose nibble path "6132"
    shares "613" with it. *)
Lemma upsert_splits_leaf_witness :
  objs leaf_tree !! 0%nat = Some (LeafContainer (mkShort "6131" hello)) /\
  resolves leaf_tree [] [] /\
  total counted [] = 0 /\
  (0%nat ∉ ([] : stack)) /\
  str_from "6132" 0 = Some "6132" /\
  slen (commonPrefix "6131" "6132") < slen "6131" /\
  slen (commonPrefix "6131" "6132") < slen "6132" /\
  (forall before c, store_accepts before (persistNode_call c) = None) /\
  exists c0 c1 p' q mt',
    str_index "6131" 3 = Some c0 /\
    str_index "6132" 3 = Some c1 /\
    c0 <> c1 /\
    str_from "6131" 4 = Some p' /\
    str_from "6132" 4 = Some q /\
    upsert example_getNodeHash store_accepts 0 "6132" hello [0%nat] leaf_tree
      = Some ((None, [3%nat; 2%nat; 1%nat]), mt') /\
    objs mt' !! 0%nat = Some (LeafContainer (mkShort p' hello)) /\
    objs mt' !! 3%nat = Some (LeafContainer (mkShort q hello)).
Proof.
  assert (H1 : objs leaf_tree !! 0%nat = Some (LeafContainer (mkShort "6131" hello)))
    by reflexivity.
  assert (H2 : resolves leaf_tree [] []) by constructor.
  assert (H3 : total counted [] = 0) by reflexivity.
  assert (H4 : 0%nat ∉ ([] : stack)) by apply not_elem_of_nil.
  assert (H5 : str_from "6132" 0 = Some "6132") by reflexivity.
  assert (H6 : slen (commonPrefix "6131" "6132") < slen "6131") by (vm_compute; reflexivity).
  assert (H7 : slen (commonPrefix "6131" "6132") < slen "6132") by (vm_compute; reflexivity).
  assert (H8 : forall before c, store_accepts before (persistNode_call c) = None)
    by reflexivity.
  do 8 (split; [assumption|]).
  destruct (upsert_splits_leaf example_getNodeHash store_accepts 0 "6132" hello 0%nat []
              [] "6131" hello "6132" leaf_tree H1 H2 H3 H4 H5 H6 H7 H8)
    as (c0 & c1 & p' & q & mt' & G1 & G2 & G3 & G4 & G5 & G6 & G7 & G8 & _).
  exists c0, c1, p', q, mt'. repeat (split; [assumption|]). assumption.
Defined.

(** ** [getPathLength] only reads the tree *)

Lemma getPathLength_loop_inv (items : list ref) (l : Z) (mt mt' : merkleTreeImp) (n : Z) :
  getPathLength_loop items l mt = Some (n, mt') ->
  mt' = mt /\ exists nodes, resolves mt items nodes /\ n = l + total counted nodes.
Proof.
  revert l. induction items as [|r items IH]; intros l H; simpl in H.
  - injection H as <- <-. split; [done|]. exists []. split; [constructor|]. simpl. lia.
  - unfold bind at 1 in H. unfold deref in H.
    destruct (objs mt !! r) as [c|] eqn:E; [|done].
    destruct c as [b|e|lf]; simpl in H.
    + apply IH in H as (-> & nodes & Hres & ->). split; [done|].
      exists (BranchContainer b :: nodes). split; [by constructor|]. simpl. lia.
    + unfold getPath, bind, deref, must, ret in H. rewrite E in H. simpl in H.
      apply IH in H as (-> & nodes & Hres & ->). split; [done|].
      exists (ExtContainer e :: nodes). split; [by constructor|]. simpl. lia.
    + apply IH in H as (-> & nodes & Hres & ->). split; [done|].
      exists (LeafContainer lf :: nodes). split; [by constructor|]. simpl. lia.
Qed.

Lemma total_counted_nonneg (nodes : list nodeContainer) : 0 <= total counted nodes.
Proof.
  induction nodes as [|c nodes IH]; simpl; [lia|].
  destruct c as [b|e|lf]; simpl; unfold slen; lia.
Qed.

(** X18: when [getPathLength] returns, the tree, its node objects and its
    trace of store calls are as they were, every node of the stack is a
    node object, and the result is the sum over the stack of one per
    Branch and the length of the path per Extension, a number that is
    never negative. *)
Theorem getPathLength_reads_only (s : stack) (mt mt' : merkleTreeImp) (l : Z) :
  getPathLength s mt = Some (l, mt') ->
  mt' = mt /\ 0 <= l /\
  exists nodes, resolves mt s nodes /\ l = total counted nodes.
Proof.
  intros H. unfold getPathLength, toSlice in H.
  apply getPathLength_loop_inv in H as (-> & nodes & Hres & ->).
  split; [done|]. split; [|by exists nodes].
  pose proof (total_counted_nonneg nodes). lia.
Qed.

(** X18 on the empty-path Leaf over four Branch nodes. *)
Lemma getPathLength_reads_only_witness :
  getPathLength deep_leaf_stack deep_leaf_tree = Some (4, deep_leaf_tree) /\
  deep_leaf_tree = deep_leaf_tree /\ 0 <= 4 /\
  exists nodes, resolves deep_leaf_tree deep_leaf_stack nodes /\ 4 = total counted nodes.
Proof.
  assert (H : getPathLength deep_leaf_stack deep_leaf_tree = Some (4, deep_leaf_tree))
    by reflexivity.
  split; [exact H|].
  exact (getPathLength_reads_only deep_leaf_stack deep_leaf_tree deep_leaf_tree 4 H).
Defined.
